(** * display_config.py: mass parallel deployment script

    A shallow embedding of [python_scripts/display_config.py] and the
    properties of its logger, discovery range, exclusion filter and per-host
    deployment workflow.

    Conventions of the embedding.
    - A Python [str] is the list of its Unicode code points; [bytes] is a list
      of [Byte.byte]; [decode] is strict UTF-8 and [strip] removes what
      [str.isspace] accepts.
    - Everything outside the script (the SSH/SCP peer, the local file system,
      the clock, ping) is a [World]: a record of the answers the script gets.
      An answer depends on the arguments of the call; within one workflow no
      two calls have the same arguments when the directory listing names each
      file once.  The local disk is taken not to change during a run.
    - The logger works on a [State] (the log directory and the text of the
      two log files) in a state-and-exception monad [IO].
    - The network part of the script is written in a monad [M] that records
      the calls made, in order, and how the computation ended; the calls made
      before an exception stay made, as in Python.  [perform_all] carries the
      recorded logger calls out on the [State].
    - The workflow of a host is first written for a console and a disk that
      take every call; [Raising] has it again, and [main] with the two thread
      pools, for a console and a disk that can refuse a call.  The scheduler
      of the pools is part of the [World].
    - The statements at module level of the script (two diagnostic prints and
      a line appended to a file next to the script) touch neither log and are
      left out. *)

From Stdlib Require Import List ZArith NArith Bool Lia Arith FinFun Permutation.
From Stdlib Require Import Ascii String DecimalString.
From Stdlib.Strings Require Import Byte.
Import ListNotations.

(* ===================================================================== *)
(** ** Python text *)
(* ===================================================================== *)

Module Text.

(** A Python [str]: the sequence of its code points. *)
Definition str := list N.

(** Python [bytes]. *)
Definition bytes := list Byte.byte.

Definition str_eqb (a b : str) : bool :=
  if list_eq_dec N.eq_dec a b then true else false.

(** Truthiness of a [str]: [if s:] holds for the non-empty ones. *)
Definition truthy (s : str) : bool :=
  match s with [] => false | _ :: _ => true end.

Definition bytes_of_string (s : string) : bytes := list_byte_of_string s.

Definition continuation (b : N) : bool := (128 <=? b)%N && (b <=? 191)%N.

(** [bytes.decode()]: strict UTF-8.  [None] stands for UnicodeDecodeError:
    a stray or missing continuation byte, an overlong form, a surrogate, or
    a code point above U+10FFFF. *)
Fixpoint utf8_decode_N (bs : list N) : option str :=
  match bs with
  | [] => Some []
  | b0 :: r0 =>
    if (b0 <? 128)%N then option_map (cons b0) (utf8_decode_N r0)
    else if (b0 <? 194)%N then None
    else if (b0 <? 224)%N then
      match r0 with
      | b1 :: r1 =>
        if continuation b1
        then option_map (cons ((b0 - 192) * 64 + (b1 - 128))%N) (utf8_decode_N r1)
        else None
      | _ => None
      end
    else if (b0 <? 240)%N then
      match r0 with
      | b1 :: b2 :: r2 =>
        let cp := ((b0 - 224) * 4096 + (b1 - 128) * 64 + (b2 - 128))%N in
        if continuation b1 && continuation b2
           && (2048 <=? cp)%N && negb ((55296 <=? cp)%N && (cp <=? 57343)%N)
        then option_map (cons cp) (utf8_decode_N r2)
        else None
      | _ => None
      end
    else if (b0 <? 245)%N then
      match r0 with
      | b1 :: b2 :: b3 :: r3 =>
        let cp := ((b0 - 240) * 262144 + (b1 - 128) * 4096
                   + (b2 - 128) * 64 + (b3 - 128))%N in
        if continuation b1 && continuation b2 && continuation b3
           && (65536 <=? cp)%N && (cp <=? 1114111)%N
        then option_map (cons cp) (utf8_decode_N r3)
        else None
      | _ => None
      end
    else None
  end.

Definition decode (b : bytes) : option str := utf8_decode_N (map Byte.to_N b).

(** A literal of the script, written as in the source file (UTF-8). *)
Definition lit (s : string) : str :=
  match decode (bytes_of_string s) with Some t => t | None => [] end.
Arguments lit : simpl never.

(** [str.isspace] on one code point (the table of the Unicode database that
    CPython consults for [str.strip()]). *)
Definition is_space (c : N) : bool :=
  ((9 <=? c) && (c <=? 13) || (28 <=? c) && (c <=? 32)
   || (c =? 133) || (c =? 160) || (c =? 5760)
   || (8192 <=? c) && (c <=? 8202)
   || (c =? 8232) || (c =? 8233) || (c =? 8239) || (c =? 8287)
   || (c =? 12288))%N.

Fixpoint lstrip (s : str) : str :=
  match s with
  | c :: r => if is_space c then lstrip r else s
  | [] => []
  end.

Definition rstrip (s : str) : str := rev (lstrip (rev s)).

(** [s.strip()] *)
Definition strip (s : str) : str := rstrip (lstrip s).

(** [str(n)] for a non-negative integer. *)
Definition str_of_N (n : N) : str :=
  lit (NilEmpty.string_of_uint (N.to_uint n)).

(** A [%0wd] field of [strftime]: decimal, zero-padded on the left to [w]. *)
Definition zero_pad (w : nat) (n : N) : str :=
  let d := str_of_N n in
  repeat 48%N (w - List.length d) ++ d.

Definition newline : N := 10%N.

Fixpoint startswith (prefix s : str) : bool :=
  match prefix, s with
  | [], _ => true
  | p :: prefix', c :: s' => (p =? c)%N && startswith prefix' s'
  | _ :: _, [] => false
  end.

Definition endswith (suffix s : str) : bool := startswith (rev suffix) (rev s).

(** [os.path.join(a, b)] (posixpath). *)
Definition os_path_join (a b : str) : str :=
  if startswith [47%N] b then b
  else if negb (truthy a) || endswith [47%N] a then a ++ b
  else a ++ [47%N] ++ b.

(** [str(x)] for an optional text: [None] prints as its name. *)
Definition str_of_option (o : option str) : str :=
  match o with Some s => s | None => lit "None" end.

(** [sep.join(parts)] *)
Fixpoint join (sep : str) (parts : list str) : str :=
  match parts with
  | [] => []
  | [p] => p
  | p :: rest => p ++ sep ++ join sep rest
  end.

End Text.
Import Text.

Declare Scope pystr_scope.
Delimit Scope pystr_scope with py.
Notation "'u' s" := (lit s%string) (at level 1, s at level 0, only parsing) : pystr_scope.

Local Open Scope pystr_scope.

(* ===================================================================== *)
(** ** The [ipaddress] module, as far as the script uses it *)
(* ===================================================================== *)

Module Ipaddress.

Local Open Scope Z_scope.

(** [IPv4Address._ALL_ONES] *)
Definition ALL_ONES : Z := 2 ^ 32 - 1.

(** An IPv4 address is its 32-bit integer [_ip]. *)
Definition IPv4Address := Z.

Record IPv4Network := {
  network_address : IPv4Address;
  prefixlen : Z
}.

(** [_ip_int_from_prefix]: the netmask of a prefix length. *)
Definition netmask (p : Z) : Z := Z.lxor ALL_ONES (Z.shiftr ALL_ONES p).

(** [hostmask]: the complement of the netmask on 32 bits. *)
Definition hostmask (p : Z) : Z := Z.lxor (netmask p) ALL_ONES.

(** [ipaddress.ip_interface(f"{addr}/{p}").network]: the host bits of the
    interface address are masked off. *)
Definition ip_interface_network (addr : IPv4Address) (p : Z) : IPv4Network :=
  {| network_address := Z.land addr (netmask p); prefixlen := p |}.

Definition broadcast_address (n : IPv4Network) : IPv4Address :=
  Z.lor (network_address n) (hostmask (prefixlen n)).

(** [range(a, b)] *)
Definition range (a b : Z) : list Z :=
  map (fun i => a + Z.of_nat i) (seq 0 (Z.to_nat (b - a))).

(** [IPv4Network.hosts()]: everything strictly between the network and the
    broadcast address; a /31 yields both of its addresses and a /32 its
    only one. *)
Definition hosts (n : IPv4Network) : list IPv4Address :=
  if prefixlen n =? 31 then range (network_address n) (broadcast_address n + 1)
  else if prefixlen n =? 32 then [network_address n]
  else range (network_address n + 1) (broadcast_address n).

(** The four bytes of [_ip], most significant first. *)
Definition octets (a : IPv4Address) : list Z :=
  [Z.land (Z.shiftr a 24) 255; Z.land (Z.shiftr a 16) 255;
   Z.land (Z.shiftr a 8) 255; Z.land a 255].

(** [str(ip)]: dotted quad. *)
Definition ip_str (a : IPv4Address) : str :=
  join (u".") (map (fun o => str_of_N (Z.to_N o)) (octets a)).

(** [IPv4Address("a.b.c.d")] for four octets. *)
Definition of_octets (a b c d : Z) : IPv4Address :=
  Z.lor (Z.shiftl a 24) (Z.lor (Z.shiftl b 16) (Z.lor (Z.shiftl c 8) d)).

End Ipaddress.
Import Ipaddress.

(* ===================================================================== *)
(** ** [time.strftime] *)
(* ===================================================================== *)

(** [time.struct_time], the fields the format reads. *)
Record struct_time := {
  tm_year : N;
  tm_mon : N;
  tm_mday : N;
  tm_hour : N;
  tm_min : N;
  tm_sec : N
}.

(** [time.strftime("[%Y-%m-%d %H:%M:%S]", t)].  [%Y] is the year in decimal
    (the C library does not pad it); the other fields are two digits. *)
Definition strftime_stamp (t : struct_time) : str :=
  u"[" ++ str_of_N (tm_year t) ++ u"-" ++ zero_pad 2 (tm_mon t) ++ u"-"
       ++ zero_pad 2 (tm_mday t) ++ u" " ++ zero_pad 2 (tm_hour t) ++ u":"
       ++ zero_pad 2 (tm_min t) ++ u":" ++ zero_pad 2 (tm_sec t) ++ u"]".

(** The fields of a calendar time as [time.localtime()] returns them, for
    the four-digit years. *)
Definition wf_time (t : struct_time) : Prop :=
  (1000 <= tm_year t <= 9999 /\ 1 <= tm_mon t <= 12 /\ 1 <= tm_mday t <= 31
   /\ tm_hour t <= 23 /\ tm_min t <= 59 /\ tm_sec t <= 61)%N.

(* ===================================================================== *)
(** ** Exceptions, configuration, the world *)
(* ===================================================================== *)

(** A raised [Exception]; [exc_str] is [str(e)], which is all the script
    looks at. *)
Record exception := Exception { exc_str : str }.

Inductive result (A : Type) : Type :=
| Return (a : A)
| Raise (e : exception).
Arguments Return {A} a.
Arguments Raise {A} e.

(** The USER CONFIGURATION block. *)
Record Config := {
  REMOTE_USER : str;
  REMOTE_PASSWORD : str;
  REMOTE_DIR : str;
  LOCAL_DIR : str;
  TARGET_FILE_TO_RUN : str;
  USE_SSH_KEY : bool;
  SSH_KEY_PATH : str;
  EXCLUDE_IPS : list str;
  MAX_PARALLEL_TASKS : N;
  LOG_DIR : str
}.

(** The values in the script as it stands. *)
Definition source_config : Config := {|
  REMOTE_USER := u"prod";
  REMOTE_PASSWORD := u"phason";
  REMOTE_DIR := u"/home/prod/";
  LOCAL_DIR := u"/home/phason/auto sort ilitek-rev2-scripts calibration/Files";
  TARGET_FILE_TO_RUN := u"update-ilitek";
  USE_SSH_KEY := false;
  SSH_KEY_PATH := u"/home/pi/.ssh/id_rsa";
  EXCLUDE_IPS := [];
  MAX_PARALLEL_TASKS := 250;
  LOG_DIR := u"/home/phason/Logs"
|}.

(** What the script is told by everything outside it. *)
Record World := {
  (** [time.localtime()] at the n-th reading of the clock *)
  w_clock : nat -> struct_time;
  (** [time.ctime()] and the rounded run time, as text *)
  w_ctime : str;
  w_total_time : str;
  (** [os.path.isdir], [os.listdir], [os.path.isfile] on the local disk *)
  w_isdir : str -> bool;
  w_listdir : str -> result (list str);
  w_isfile : str -> bool;
  (** [get_local_ip()] and [get_gateway_ip()] *)
  w_local_ip : result IPv4Address;
  w_gateway_ip : option str;
  (** return code of [ping] on an address *)
  w_ping : str -> result Z;
  (** [paramiko.RSAKey.from_private_key_file] on a path *)
  w_load_key : str -> option exception;
  (** [client.connect] to a host: [None] when the session opens *)
  w_connect : str -> option exception;
  (** entering [with SCPClient(...)]: opening the channel on the transport
      of the session of a host *)
  w_scp_open : str -> option exception;
  (** [scp.put] of a local path to a host *)
  w_put : str -> str -> option exception;
  (** [exec_command] on a host: the bytes its stdout and stderr deliver *)
  w_exec : str -> str -> result (bytes * bytes);
  (** [str(e)] of the UnicodeDecodeError for undecodable bytes *)
  w_decode_error : bytes -> str;
  (** the scheduler: the thread that moves next during the scan and during
      the deployment, and the future that completes next *)
  w_scan_turns : list nat;
  w_deploy_turns : list nat;
  w_completion_turns : list nat
}.

(* ===================================================================== *)
(** ** LOGGING UTILITIES *)
(* ===================================================================== *)

(** The part of the disk the logger touches: whether [LOG_DIR] exists, the
    text of the two log files, and how often the clock was read. *)
Record State := {
  log_dir_exists : bool;
  detailed_log : str;
  error_log : str;
  clock_reads : nat
}.

(** State passing with exceptions for the logger. *)
Definition IO (A : Type) : Type := State -> result A * State.

Definition io_ret {A} (a : A) : IO A := fun st => (Return a, st).

Definition io_bind {A B} (m : IO A) (f : A -> IO B) : IO B :=
  fun st =>
    match m st with
    | (Return a, st') => f a st'
    | (Raise e, st') => (Raise e, st')
    end.

Notation "x <-- m ;;; k" := (io_bind m (fun x => k))
  (at level 100, m at next level, right associativity).
Notation "m ;;; k" := (io_bind m (fun _ => k))
  (at level 100, right associativity).

Inductive LogFile := DETAILED_LOG | ERROR_LOG.

Section Logger.

Variable W : World.
Variable cfg : Config.

(** [DETAILED_LOG] and [ERROR_LOG] as paths. *)
Definition log_path (f : LogFile) : str :=
  match f with
  | DETAILED_LOG => os_path_join (LOG_DIR cfg) (u"detailed_log.txt")
  | ERROR_LOG => os_path_join (LOG_DIR cfg) (u"error_log.txt")
  end.

(** [os.makedirs(LOG_DIR, exist_ok=True)] where the directory can be made
    or is there already; what [main] does when it cannot be made is in
    [Raising.ensure_log_dir]. *)
Definition makedirs_exist_ok : IO unit :=
  fun st => (Return tt,
             {| log_dir_exists := true; detailed_log := detailed_log st;
                error_log := error_log st; clock_reads := clock_reads st |}).

(** [time.strftime("[%Y-%m-%d %H:%M:%S]")]: reads the clock once. *)
Definition strftime_now : IO str :=
  fun st => (Return (strftime_stamp (w_clock W (clock_reads st))),
             {| log_dir_exists := log_dir_exists st;
                detailed_log := detailed_log st; error_log := error_log st;
                clock_reads := S (clock_reads st) |}).

(** [with open(target_file, "a") as f: f.write(text)].  Opening a file in a
    directory that does not exist raises FileNotFoundError. *)
Definition append_file (target_file : LogFile) (text : str) : IO unit :=
  fun st =>
    if log_dir_exists st then
      (Return tt,
       match target_file with
       | DETAILED_LOG =>
           {| log_dir_exists := true; detailed_log := detailed_log st ++ text;
              error_log := error_log st; clock_reads := clock_reads st |}
       | ERROR_LOG =>
           {| log_dir_exists := true; detailed_log := detailed_log st;
              error_log := error_log st ++ text; clock_reads := clock_reads st |}
       end)
    else (Raise (Exception (u"[Errno 2] No such file or directory: '"
                            ++ log_path target_file ++ u"'")), st).

Definition ensure_log_dir : IO unit := makedirs_exist_ok.

Definition log_message (msg : str) (error : bool) : IO unit :=
  ensure_log_dir ;;;
  timestamp <-- strftime_now ;;;
  let target_file := if error then ERROR_LOG else DETAILED_LOG in
  append_file target_file (timestamp ++ u" " ++ msg ++ [newline]).

End Logger.

(* ===================================================================== *)
(** ** Calls that leave the process, and the monad that records them *)
(* ===================================================================== *)

(** How [client.connect] authenticates. *)
Inductive Credentials :=
| Password (password : option str)
| PKey (key_path : str).

(** The calls of the network part of the script, in the order made: the
    probe sent by [ping_ip], the console, the logger, and the calls on a
    session.  The logger is entered through [LogMessage] and
    [EnsureLogDir]; [perform] below runs them on the [State]. *)
Inductive Effect :=
| Ping (host : str)
| Print (text : str)
| LogMessage (msg : str) (error : bool)
| EnsureLogDir
| Connect (host user : str) (auth : Credentials)
| ScpEnter (host : str)
| ScpPut (host local_path remote_path : str)
| ScpExit (host : str)
| ExecCommand (host command : str)
| SshClose (host : str).

(** A computation: the calls it made, and how it ended.  The calls made
    before an exception stay made. *)
Definition M (A : Type) : Type := list Effect * result A.

Definition ret {A} (a : A) : M A := ([], Return a).

Definition raise {A} (e : exception) : M A := ([], Raise e).

Definition bind {A B} (m : M A) (f : A -> M B) : M B :=
  match m with
  | (t, Return a) => let (t', r) := f a in (t ++ t', r)
  | (t, Raise e) => (t, Raise e)
  end.

Definition emit (e : Effect) : M unit := ([e], Return tt).

(** [try: body / except Exception as e: handler(e)] *)
Definition try_except {A} (body : M A) (handler : exception -> M A) : M A :=
  match body with
  | (t, Raise e) => let (t', r) := handler e in (t ++ t', r)
  | (t, Return a) => (t, Return a)
  end.

(** [try: body / finally: final]; the exit of a [with] block. *)
Definition try_finally {A} (body : M A) (final : M unit) : M A :=
  let (t, r) := body in
  let (t', r') := final in
  (t ++ t', match r' with Raise e' => Raise e' | Return _ => r end).

Declare Scope script_scope.
Delimit Scope script_scope with script.
Notation "x <- m ;; k" := (bind m (fun x => k))
  (at level 100, m at next level, right associativity) : script_scope.
Notation "m ;; k" := (bind m (fun _ => k))
  (at level 100, right associativity) : script_scope.
Local Open Scope script_scope.

Definition trace {A} (m : M A) : list Effect := fst m.
Definition outcome {A} (m : M A) : result A := snd m.

(** An open [paramiko.SSHClient] and an [SCPClient] over its transport. *)
Record SSHClient := { ssh_peer : str }.
Record SCPClient := { scp_peer : str }.

Section Script.

Variable W : World.
Variable cfg : Config.

Definition print (text : str) : M unit := emit (Print text).

(** A call of [log_message]; [error] defaults to [False] in the source. *)
Definition log (msg : str) (error : bool) : M unit := emit (LogMessage msg error).

(* --------------------------------------------------------------------- *)
(** *** NETWORK FUNCTIONS *)

Definition get_local_ip : M IPv4Address :=
  match w_local_ip W with
  | Return a => ret a
  | Raise e => raise e
  end.

(** The default gateway, or [None]: reading the output of [ip route] is
    left to the world. *)
Definition get_gateway_ip : option str := w_gateway_ip W.

(** [ping_ip(ip)]: what it returns.  The probe itself is recorded where
    [main] sends it, in the pool of the scan. *)
Definition ping_ip (ip : str) : option str :=
  match w_ping W ip with
  | Return 0%Z => Some ip
  | Return _ => None
  | Raise _ => None
  end.

(* --------------------------------------------------------------------- *)
(** *** SSH / SCP FUNCTIONS *)

Definition connect (host user : str) (auth : Credentials) : M unit :=
  emit (Connect host user auth) ;;
  match w_connect W host with
  | None => ret tt
  | Some e => raise e
  end.

Definition from_private_key_file (key_path : str) : M unit :=
  match w_load_key W key_path with
  | None => ret tt
  | Some e => raise e
  end.

Definition create_ssh_client (host user : str) (password key_path : option str)
  : M SSHClient :=
  (match key_path with
   | Some path =>
       if truthy path then from_private_key_file path ;; connect host user (PKey path)
       else connect host user (Password password)
   | None => connect host user (Password password)
   end) ;;
  ret {| ssh_peer := host |}.

Definition exec_command (ssh_client : SSHClient) (command : str)
  : M (bytes * bytes) :=
  emit (ExecCommand (ssh_peer ssh_client) command) ;;
  match w_exec W (ssh_peer ssh_client) command with
  | Return streams => ret streams
  | Raise e => raise e
  end.

Definition ssh_close (ssh_client : SSHClient) : M unit :=
  emit (SshClose (ssh_peer ssh_client)).

Definition scp_put (scp : SCPClient) (full_path remote_path : str) : M unit :=
  emit (ScpPut (scp_peer scp) full_path remote_path) ;;
  match w_put W (scp_peer scp) full_path with
  | None => ret tt
  | Some e => raise e
  end.

(** [with SCPClient(ssh_client.get_transport()) as scp: body].  Entering
    opens a channel on the transport, which can raise; the block is then
    neither run nor exited. *)
Definition with_SCPClient {A} (ssh_client : SSHClient) (body : SCPClient -> M A)
  : M A :=
  let scp := {| scp_peer := ssh_peer ssh_client |} in
  emit (ScpEnter (scp_peer scp)) ;;
  match w_scp_open W (scp_peer scp) with
  | Some e => raise e
  | None => try_finally (body scp) (emit (ScpExit (scp_peer scp)))
  end.

(** [stream.read().decode().strip()] *)
Definition read_decode_strip (data : bytes) : M str :=
  match decode data with
  | Some s => ret (strip s)
  | None => raise (Exception (w_decode_error W data))
  end.

(** The transfer loop over the directory listing. *)
Fixpoint transfer (scp : SCPClient) (ip : str) (listing : list str)
  (transferred_files : list str) : M (list str) :=
  match listing with
  | [] => ret transferred_files
  | filename :: rest =>
      let full_path := os_path_join (LOCAL_DIR cfg) filename in
      if w_isfile W full_path then
        scp_put scp full_path (REMOTE_DIR cfg) ;;
        let transferred_files := transferred_files ++ [filename] in
        log (ip ++ u": Copied " ++ filename) false ;;
        transfer scp ip rest transferred_files
      else transfer scp ip rest transferred_files
  end.

Definition listdir (path : str) : M (list str) :=
  match w_listdir W path with
  | Return names => ret names
  | Raise e => raise e
  end.

Definition cleanup_cmd (filename : str) : str :=
  u"rm -f " ++ REMOTE_DIR cfg ++ filename.

(** The cleanup loop over [transferred_files]. *)
Fixpoint cleanup (ssh_client : SSHClient) (ip : str) (files : list str) : M unit :=
  match files with
  | [] => ret tt
  | filename :: rest =>
      exec_command ssh_client (cleanup_cmd filename) ;;
      log (ip ++ u": Deleted " ++ filename ++ u" after successful execution.") false ;;
      cleanup ssh_client ip rest
  end.

Definition chmod_cmd : str := u"chmod +x " ++ REMOTE_DIR cfg ++ TARGET_FILE_TO_RUN cfg.
Definition run_cmd : str := u"bash " ++ REMOTE_DIR cfg ++ TARGET_FILE_TO_RUN cfg.

(** The outcome policy: what the [try] does once [output] and [error] are
    read, down to closing the session. *)
Definition after_execution (ssh_client : SSHClient) (ip : str)
  (transferred_files : list str) (output error : str) : M unit :=
  (if truthy error then
     let msg := ip ++ u": ⚠ Script error: " ++ error in
     print msg ;; log msg true
   else
     let msg := ip ++ u": ✅ Script executed successfully." in
     print msg ;; log msg false ;;
     cleanup ssh_client ip transferred_files ;;
     print (u"[🧹] " ++ ip ++ u": Cleaned up "
            ++ str_of_N (N.of_nat (List.length transferred_files))
            ++ u" transferred files.")) ;;
  (if truthy output then log (ip ++ u": OUTPUT → " ++ output) false else ret tt) ;;
  ssh_close ssh_client.

(** The body of the [try] in [send_files_and_execute]. *)
Definition workflow_body (ip : str) : M unit :=
  print (u"[→] " ++ ip ++ u": Connecting...") ;;
  ssh_client <- create_ssh_client ip (REMOTE_USER cfg)
                  (if USE_SSH_KEY cfg then None else Some (REMOTE_PASSWORD cfg))
                  (if USE_SSH_KEY cfg then Some (SSH_KEY_PATH cfg) else None) ;;
  if negb (w_isdir W (LOCAL_DIR cfg)) then
    let msg := ip ++ u": ❌ Local directory '" ++ LOCAL_DIR cfg ++ u"' missing. Skipping." in
    print msg ;; log msg true ;;
    ssh_close ssh_client
  else
    transferred_files <-
      with_SCPClient ssh_client (fun scp =>
        listing <- listdir (LOCAL_DIR cfg) ;;
        transfer scp ip listing []) ;;
    exec_command ssh_client chmod_cmd ;;
    streams <- exec_command ssh_client run_cmd ;;
    output <- read_decode_strip (fst streams) ;;
    error <- read_decode_strip (snd streams) ;;
    after_execution ssh_client ip transferred_files output error.

(** [send_files_and_execute(ip)] *)
Definition send_files_and_execute (ip : str) : M unit :=
  try_except (workflow_body ip)
    (fun e =>
       let msg := ip ++ u": ❌ " ++ exc_str e in
       print msg ;; log msg true).

End Script.

(* ===================================================================== *)
(** ** MAIN EXECUTION *)
(* ===================================================================== *)

Section Main.

Variable W : World.
Variable cfg : Config.

(** [str(ip) for ip in network.hosts()] on the /24 of the local address. *)
Definition candidates (local : IPv4Address) : list IPv4Address :=
  hosts (ip_interface_network local 24).

Definition ip_list (local : IPv4Address) : list str :=
  map ip_str (candidates local).

Definition opt_str_eqb (a b : option str) : bool :=
  match a, b with
  | Some x, Some y => str_eqb x y
  | None, None => true
  | _, _ => false
  end.

(** The condition of the comprehension that builds [active_ips]. *)
Definition eligible (local_ip : str) (gateway_ip : option str) (ip : option str)
  : bool :=
  match ip with
  | Some a =>
      truthy a && negb (str_eqb a local_ip)
      && negb (opt_str_eqb (Some a) gateway_ip)
      && negb (existsb (str_eqb a) (EXCLUDE_IPS cfg))
  | None => false
  end.

Fixpoint active_ips (ping_results : list (option str)) (local_ip : str)
  (gateway_ip : option str) : list str :=
  match ping_results with
  | [] => []
  | ip :: rest =>
      match ip with
      | Some a =>
          if eligible local_ip gateway_ip ip
          then a :: active_ips rest local_ip gateway_ip
          else active_ips rest local_ip gateway_ip
      | None => active_ips rest local_ip gateway_ip
      end
  end.

Definition rule : str :=
  u"------------------------------------------------------------".

(* --------------------------------------------------------------------- *)
(** *** Running the recorded calls on the disk *)

Definition perform (e : Effect) : IO unit :=
  match e with
  | LogMessage msg error => log_message W cfg msg error
  | EnsureLogDir => ensure_log_dir
  | _ => io_ret tt
  end.

Fixpoint perform_all (t : list Effect) : IO unit :=
  match t with
  | [] => io_ret tt
  | e :: rest => perform e ;;; perform_all rest
  end.

End Main.

(* ===================================================================== *)
(** ** Reading a trace *)
(* ===================================================================== *)

(** The messages sent to one of the two logs, in order. *)
Fixpoint logged (error : bool) (t : list Effect) : list str :=
  match t with
  | [] => []
  | LogMessage msg e :: rest =>
      if Bool.eqb e error then msg :: logged error rest else logged error rest
  | _ :: rest => logged error rest
  end.

(** The commands executed on a host, in order. *)
Fixpoint commands (host : str) (t : list Effect) : list str :=
  match t with
  | [] => []
  | ExecCommand h c :: rest =>
      if str_eqb h host then c :: commands host rest else commands host rest
  | _ :: rest => commands host rest
  end.

(** A deletion command: [rm -f] and a path. *)
Definition is_deletion (command : str) : bool := startswith (u"rm -f ") command.

Definition deletions (host : str) (t : list Effect) : list str :=
  filter is_deletion (commands host t).

(** The local paths offered to [scp.put] for a host. *)
Fixpoint puts (host : str) (t : list Effect) : list str :=
  match t with
  | [] => []
  | ScpPut h p _ :: rest =>
      if str_eqb h host then p :: puts host rest else puts host rest
  | _ :: rest => puts host rest
  end.

Definition is_network (e : Effect) : bool :=
  match e with
  | Ping _ | Connect _ _ _ | ScpEnter _ | ScpPut _ _ _ | ScpExit _
  | ExecCommand _ _ | SshClose _ => true
  | Print _ | LogMessage _ _ | EnsureLogDir => false
  end.

(** The sessions closed on a host. *)
Definition closes (host : str) (t : list Effect) : nat :=
  List.length (filter (fun e => match e with
                                | SshClose h => str_eqb h host
                                | _ => false
                                end) t).

(* ===================================================================== *)
(** ** The shape of a log line *)
(* ===================================================================== *)

Definition is_digit (c : N) : bool := ((48 <=? c) && (c <=? 57))%N.

(** [[YYYY-MM-DD HH:MM:SS]] *)
Definition is_stamp (s : str) : bool :=
  match s with
  | [o; y1; y2; y3; y4; p1; m1; m2; p2; d1; d2; sp; h1; h2; c1; i1; i2; c2; s1; s2; c] =>
      ((o =? 91) && forallb is_digit [y1; y2; y3; y4] && (p1 =? 45)
       && forallb is_digit [m1; m2] && (p2 =? 45) && forallb is_digit [d1; d2]
       && (sp =? 32) && forallb is_digit [h1; h2] && (c1 =? 58)
       && forallb is_digit [i1; i2] && (c2 =? 58) && forallb is_digit [s1; s2]
       && (c =? 93))%N
  | _ => false
  end.

(** Line terminators in a text. *)
Definition line_breaks (s : str) : nat := count_occ N.eq_dec s newline.

(* ===================================================================== *)
(** ** Sample worlds *)
(* ===================================================================== *)

Definition sample_time : struct_time :=
  {| tm_year := 2025; tm_mon := 3; tm_mday := 9;
     tm_hour := 7; tm_min := 5; tm_sec := 0 |}.

Definition empty_disk : State :=
  {| log_dir_exists := false; detailed_log := []; error_log := [];
     clock_reads := 0 |}.

(** A network with one Raspberry Pi at 192.168.1.7: the source directory
    holds [a.sh] and [b.conf], and the script prints [done]. *)
Definition sample_world : World := {|
  w_clock := fun _ => sample_time;
  w_ctime := u"Sun Mar  9 07:05:00 2025";
  w_total_time := u"3.21";
  w_isdir := fun _ => true;
  w_listdir := fun _ => Return [u"a.sh"; u"b.conf"];
  w_isfile := fun _ => true;
  w_local_ip := Return (of_octets 192 168 1 10);
  w_gateway_ip := Some (u"192.168.1.1");
  w_ping := fun ip => if str_eqb ip (u"192.168.1.7") then Return 0%Z else Return 1%Z;
  w_load_key := fun _ => None;
  w_connect := fun _ => None;
  w_scp_open := fun _ => None;
  w_put := fun _ _ => None;
  w_exec := fun _ command =>
    if str_eqb command (u"bash /home/prod/update-ilitek")
    then Return (bytes_of_string "done", [])
    else Return ([], []);
  w_decode_error := fun _ => u"'utf-8' codec can't decode";
  w_scan_turns := [];
  w_deploy_turns := [];
  w_completion_turns := []
|}.

Definition pi : str := u"192.168.1.7".

(** The script emits the error stream [permission denied] and no output. *)
Definition denied_world : World := {|
  w_clock := w_clock sample_world;
  w_ctime := w_ctime sample_world;
  w_total_time := w_total_time sample_world;
  w_isdir := w_isdir sample_world;
  w_listdir := w_listdir sample_world;
  w_isfile := w_isfile sample_world;
  w_local_ip := w_local_ip sample_world;
  w_gateway_ip := w_gateway_ip sample_world;
  w_ping := w_ping sample_world;
  w_load_key := w_load_key sample_world;
  w_connect := w_connect sample_world;
  w_scp_open := w_scp_open sample_world;
  w_put := w_put sample_world;
  w_exec := fun _ command =>
    if str_eqb command (u"bash /home/prod/update-ilitek")
    then Return (bytes_of_string "partial", bytes_of_string "permission denied")
    else Return ([], []);
  w_decode_error := w_decode_error sample_world;
  w_scan_turns := w_scan_turns sample_world;
  w_deploy_turns := w_deploy_turns sample_world;
  w_completion_turns := w_completion_turns sample_world
|}.


(** The script prints a line break and nothing else. *)
Definition blank_stdout_world : World := {|
  w_clock := w_clock sample_world;
  w_ctime := w_ctime sample_world;
  w_total_time := w_total_time sample_world;
  w_isdir := w_isdir sample_world;
  w_listdir := w_listdir sample_world;
  w_isfile := w_isfile sample_world;
  w_local_ip := w_local_ip sample_world;
  w_gateway_ip := w_gateway_ip sample_world;
  w_ping := w_ping sample_world;
  w_load_key := w_load_key sample_world;
  w_connect := w_connect sample_world;
  w_scp_open := w_scp_open sample_world;
  w_put := w_put sample_world;
  w_exec := fun _ command =>
    if str_eqb command (u"bash /home/prod/update-ilitek")
    then Return ([x0a], [])
    else Return ([], []);
  w_decode_error := w_decode_error sample_world;
  w_scan_turns := w_scan_turns sample_world;
  w_deploy_turns := w_deploy_turns sample_world;
  w_completion_turns := w_completion_turns sample_world
|}.

(** The second file cannot be copied: [scp.put] raises on [b.conf]. *)
Definition failing_put_world : World := {|
  w_clock := w_clock sample_world;
  w_ctime := w_ctime sample_world;
  w_total_time := w_total_time sample_world;
  w_isdir := w_isdir sample_world;
  w_listdir := w_listdir sample_world;
  w_isfile := w_isfile sample_world;
  w_local_ip := w_local_ip sample_world;
  w_gateway_ip := w_gateway_ip sample_world;
  w_ping := w_ping sample_world;
  w_load_key := w_load_key sample_world;
  w_connect := w_connect sample_world;
  w_scp_open := w_scp_open sample_world;
  w_put := fun _ path =>
    if endswith (u"b.conf") path then Some (Exception (u"scp: connection lost"))
    else None;
  w_exec := w_exec sample_world;
  w_decode_error := w_decode_error sample_world;
  w_scan_turns := w_scan_turns sample_world;
  w_deploy_turns := w_deploy_turns sample_world;
  w_completion_turns := w_completion_turns sample_world
|}.


(** The connection drops during cleanup: of three files, the deletion of
    [a.sh] goes through and that of [b.conf] raises. *)
Definition late_failure_world : World := {|
  w_clock := w_clock sample_world;
  w_ctime := w_ctime sample_world;
  w_total_time := w_total_time sample_world;
  w_isdir := w_isdir sample_world;
  w_listdir := fun _ => Return [u"a.sh"; u"b.conf"; u"c.txt"];
  w_isfile := w_isfile sample_world;
  w_local_ip := w_local_ip sample_world;
  w_gateway_ip := w_gateway_ip sample_world;
  w_ping := w_ping sample_world;
  w_load_key := w_load_key sample_world;
  w_connect := w_connect sample_world;
  w_scp_open := w_scp_open sample_world;
  w_put := w_put sample_world;
  w_exec := fun host command =>
    if str_eqb command (u"rm -f /home/prod/b.conf")
    then Raise (Exception (u"SSH session not active"))
    else w_exec sample_world host command;
  w_decode_error := w_decode_error sample_world;
  w_scan_turns := w_scan_turns sample_world;
  w_deploy_turns := w_deploy_turns sample_world;
  w_completion_turns := w_completion_turns sample_world
|}.

(** The local source directory is not there. *)
Definition missing_dir_world : World := {|
  w_clock := w_clock sample_world;
  w_ctime := w_ctime sample_world;
  w_total_time := w_total_time sample_world;
  w_isdir := fun _ => false;
  w_listdir := fun _ => Raise (Exception (u"[Errno 2] No such file or directory"));
  w_isfile := fun _ => false;
  w_local_ip := w_local_ip sample_world;
  w_gateway_ip := w_gateway_ip sample_world;
  w_ping := w_ping sample_world;
  w_load_key := w_load_key sample_world;
  w_connect := w_connect sample_world;
  w_scp_open := w_scp_open sample_world;
  w_put := w_put sample_world;
  w_exec := w_exec sample_world;
  w_decode_error := w_decode_error sample_world;
  w_scan_turns := w_scan_turns sample_world;
  w_deploy_turns := w_deploy_turns sample_world;
  w_completion_turns := w_completion_turns sample_world
|}.

(** Three hosts answer the ping; the one at 192.168.1.8 refuses SSH. *)
Definition pi_8 : str := u"192.168.1.8".
Definition pi_9 : str := u"192.168.1.9".

Definition refusing_world : World := {|
  w_clock := w_clock sample_world;
  w_ctime := w_ctime sample_world;
  w_total_time := w_total_time sample_world;
  w_isdir := w_isdir sample_world;
  w_listdir := fun _ => Return [u"a.sh"];
  w_isfile := w_isfile sample_world;
  w_local_ip := w_local_ip sample_world;
  w_gateway_ip := w_gateway_ip sample_world;
  w_ping := fun ip =>
    if existsb (str_eqb ip) [pi; pi_8; pi_9] then Return 0%Z else Return 1%Z;
  w_load_key := w_load_key sample_world;
  w_connect := fun host =>
    if str_eqb host pi_8
    then Some (Exception (u"[Errno 111] Connection refused"))
    else None;
  w_scp_open := w_scp_open sample_world;
  w_put := w_put sample_world;
  w_exec := w_exec sample_world;
  w_decode_error := w_decode_error sample_world;
  w_scan_turns := w_scan_turns sample_world;
  w_deploy_turns := w_deploy_turns sample_world;
  w_completion_turns := w_completion_turns sample_world
|}.

(* ===================================================================== *)
(** ** The thread pools *)
(* ===================================================================== *)

(** The workers of a pool, each with what it still has to do.  A turn names
    the worker that moves next; a turn for a worker that is done, or that
    does not exist, is lost.  When the turns are used up the workers finish
    one after another.  Every order in which the steps of the workers can
    follow each other is reached by some list of turns. *)
Section Turns.

Context {A : Type}.

Fixpoint take_turn (n : nat) (strands : list (list A)) {struct strands}
  : option (A * list (list A)) :=
  match strands with
  | [] => None
  | s :: rest =>
      match n with
      | O =>
          match s with
          | a :: s' => Some (a, s' :: rest)
          | [] => None
          end
      | S n' =>
          match take_turn n' rest with
          | Some (a, rest') => Some (a, s :: rest')
          | None => None
          end
      end
  end.

Fixpoint merge (turns : list nat) (strands : list (list A)) : list A :=
  match turns with
  | [] => List.concat strands
  | n :: turns' =>
      match take_turn n strands with
      | Some (a, strands') => a :: merge turns' strands'
      | None => merge turns' strands
      end
  end.

End Turns.

(* ===================================================================== *)
(** ** The script when the console and the disk can refuse a call *)
(* ===================================================================== *)

(** What can go wrong outside the network: [os.makedirs] on the log
    directory at the start of [main], a call of [print] for a text (a
    console that cannot encode it, a closed pipe), and a call of
    [log_message] for a message and a log (a file that cannot be opened or
    written).  The definitions above are the script where none of this
    happens; the ones of [Raising] take it into account, and agree with
    them when nothing is refused. *)
Record Faults := {
  f_makedirs : option exception;
  f_print : str -> option exception;
  f_log : str -> bool -> option exception
}.

Definition no_faults : Faults :=
  {| f_makedirs := None; f_print := fun _ => None; f_log := fun _ _ => None |}.

(** The calls a computation is known to have made. *)
Definition emit_all (t : list Effect) : M unit := (t, Return tt).

(** [future.result()]: what the workflow returned, or raised. *)
Definition future_result (r : result unit) : M unit := ([], r).

Module Raising.

Section Script.

Variable F : Faults.
Variable W : World.
Variable cfg : Config.

(** A call that raises leaves nothing on the console or in the log. *)
Definition print (text : str) : M unit :=
  match f_print F text with
  | Some e => raise e
  | None => emit (Print text)
  end.

Definition log (msg : str) (error : bool) : M unit :=
  match f_log F msg error with
  | Some e => raise e
  | None => emit (LogMessage msg error)
  end.

Definition ensure_log_dir : M unit :=
  match f_makedirs F with
  | Some e => raise e
  | None => emit EnsureLogDir
  end.

Fixpoint transfer (scp : SCPClient) (ip : str) (listing : list str)
  (transferred_files : list str) : M (list str) :=
  match listing with
  | [] => ret transferred_files
  | filename :: rest =>
      let full_path := os_path_join (LOCAL_DIR cfg) filename in
      if w_isfile W full_path then
        scp_put W scp full_path (REMOTE_DIR cfg) ;;
        let transferred_files := transferred_files ++ [filename] in
        log (ip ++ u": Copied " ++ filename) false ;;
        transfer scp ip rest transferred_files
      else transfer scp ip rest transferred_files
  end.

Fixpoint cleanup (ssh_client : SSHClient) (ip : str) (files : list str) : M unit :=
  match files with
  | [] => ret tt
  | filename :: rest =>
      exec_command W ssh_client (cleanup_cmd cfg filename) ;;
      log (ip ++ u": Deleted " ++ filename ++ u" after successful execution.") false ;;
      cleanup ssh_client ip rest
  end.

Definition after_execution (ssh_client : SSHClient) (ip : str)
  (transferred_files : list str) (output error : str) : M unit :=
  (if truthy error then
     let msg := ip ++ u": ⚠ Script error: " ++ error in
     print msg ;; log msg true
   else
     let msg := ip ++ u": ✅ Script executed successfully." in
     print msg ;; log msg false ;;
     cleanup ssh_client ip transferred_files ;;
     print (u"[🧹] " ++ ip ++ u": Cleaned up "
            ++ str_of_N (N.of_nat (List.length transferred_files))
            ++ u" transferred files.")) ;;
  (if truthy output then log (ip ++ u": OUTPUT → " ++ output) false else ret tt) ;;
  ssh_close ssh_client.

Definition workflow_body (ip : str) : M unit :=
  print (u"[→] " ++ ip ++ u": Connecting...") ;;
  ssh_client <- create_ssh_client W ip (REMOTE_USER cfg)
                  (if USE_SSH_KEY cfg then None else Some (REMOTE_PASSWORD cfg))
                  (if USE_SSH_KEY cfg then Some (SSH_KEY_PATH cfg) else None) ;;
  if negb (w_isdir W (LOCAL_DIR cfg)) then
    let msg := ip ++ u": ❌ Local directory '" ++ LOCAL_DIR cfg ++ u"' missing. Skipping." in
    print msg ;; log msg true ;;
    ssh_close ssh_client
  else
    transferred_files <-
      with_SCPClient W ssh_client (fun scp =>
        listing <- listdir W (LOCAL_DIR cfg) ;;
        transfer scp ip listing []) ;;
    exec_command W ssh_client (chmod_cmd cfg) ;;
    streams <- exec_command W ssh_client (run_cmd cfg) ;;
    output <- read_decode_strip W (fst streams) ;;
    error <- read_decode_strip W (snd streams) ;;
    after_execution ssh_client ip transferred_files output error.

(** [send_files_and_execute(ip)]: the [except] clause prints and logs, and
    what these two calls raise leaves the function. *)
Definition send_files_and_execute (ip : str) : M unit :=
  try_except (workflow_body ip)
    (fun e =>
       let msg := ip ++ u": ❌ " ++ exc_str e in
       print msg ;; log msg true).

Fixpoint print_each (ips : list str) : M unit :=
  match ips with
  | [] => ret tt
  | ip :: rest => print (u" - " ++ ip) ;; print_each rest
  end.

(** [list(executor.map(ping_ip, ip_list))] in a pool of 250 workers: one
    probe for each address, sent in the order the scheduler has it; the
    answers come back in the order of the addresses. *)
Definition scan (ip_list : list str) : M (list (option str)) :=
  emit_all (merge (w_scan_turns W) (map (fun ip => [Ping ip]) ip_list)) ;;
  ret (map (ping_ip W) ip_list).

(** One turn of the collecting loop: [future.result()] re-raises what the
    workflow raised into the [try] of the loop. *)
Definition collect (ip : str) (r : result unit) : M unit :=
  try_except (future_result r)
    (fun e =>
       let msg := u"❌ Uncaught error on " ++ ip ++ u": " ++ exc_str e in
       print msg ;; log msg true).

Fixpoint collect_all (completed : list (str * result unit)) : M unit :=
  match completed with
  | [] => ret tt
  | (ip, r) :: rest => collect ip r ;; collect_all rest
  end.

(** The deployment pass.  Making the pool raises ValueError when
    [MAX_PARALLEL_TASKS] is 0.  Otherwise every workflow is submitted
    before any result is looked at, so all of them run to their end; the
    main thread takes the futures in the order they complete, and when its
    own [except] clause raises, leaving the [with] block still waits for
    the workers.  The threads of the pass are the main thread, which comes
    first, and one worker for each workflow; their steps follow each other
    as the scheduler has it.  (This lets the main thread deal with a future
    before its workflow is through, and lets more than [MAX_PARALLEL_TASKS]
    workflows be under way: more orders than the pool has, none fewer.) *)
Definition deploy (active_ips : list str) : M unit :=
  if (MAX_PARALLEL_TASKS cfg =? 0)%N then
    raise (Exception (u"max_workers must be greater than 0"))
  else
    let futures := map (fun ip => (ip, send_files_and_execute ip)) active_ips in
    let completed :=
      merge (w_completion_turns W)
            (map (fun f => [(fst f, outcome (snd f))]) futures) in
    let main_thread := collect_all completed in
    (merge (w_deploy_turns W)
           (trace main_thread :: map (fun f => trace (snd f)) futures),
     outcome main_thread).

Definition main : M unit :=
  ensure_log_dir ;;
  local <- get_local_ip W ;;
  let local_ip := ip_str local in
  let gateway_ip := get_gateway_ip W in
  print rule ;;
  print (u"🔥 Raspberry Pi Mass Deployment (Dual Logging + Auto Cleanup)") ;;
  print rule ;;
  print (u"Local IP:    " ++ local_ip) ;;
  print (u"Gateway IP:  " ++ str_of_option gateway_ip) ;;
  print (u"Threads:     " ++ str_of_N (MAX_PARALLEL_TASKS cfg)) ;;
  print (u"Logs Folder: " ++ LOG_DIR cfg) ;;
  print rule ;;
  log ([newline] ++ u"==== Deployment Started at " ++ w_ctime W ++ u" ====") false ;;
  log (u"Local IP: " ++ local_ip ++ u", Gateway: " ++ str_of_option gateway_ip) false ;;
  let ip_list := ip_list local in
  print (u"[*] Scanning network for active devices...") ;;
  ping_results <- scan ip_list ;;
  let active_ips := active_ips cfg ping_results local_ip gateway_ip in
  print (u"[+] Found " ++ str_of_N (N.of_nat (List.length active_ips))
         ++ u" active devices.") ;;
  print_each active_ips ;;
  if negb (match active_ips with [] => false | _ :: _ => true end) then
    print (u"❌ No active devices found.") ;;
    log (u"No active devices found.") true
  else
    print ([newline] ++ u"[>] Starting full parallel deployment..." ++ [newline]) ;;
    deploy active_ips ;;
    print ([newline] ++ u"✅ Deployment completed for "
           ++ str_of_N (N.of_nat (List.length active_ips)) ++ u" devices in "
           ++ w_total_time W ++ u"s.") ;;
    log (u"==== Deployment Finished (" ++ w_total_time W ++ u"s) ====") false.

End Script.

End Raising.

(** [main()] on a console and a disk that take every call. *)
Definition main (W : World) (cfg : Config) : M unit := Raising.main no_faults W cfg.

(* ===================================================================== *)
(** ** Notions used in the statements *)
(* ===================================================================== *)

Definition digits_of_width (w : nat) (s : str) : bool :=
  (List.length s =? w)%nat && forallb is_digit s.




Definition local_192_168_1_10 : IPv4Address := of_octets 192 168 1 10.

(** The hosts the probes reported: the answers that are not [None]. *)
Definition live_hosts (ping_results : list (option str)) : list str :=
  flat_map (fun r => match r with Some a => [a] | None => [] end) ping_results.

(** The addresses the filter is to remove: self, gateway, block-list. *)
Definition excluded (cfg : Config) (local_ip : str) (gateway_ip : option str)
  (a : str) : Prop :=
  a = local_ip \/ gateway_ip = Some a \/ In a (EXCLUDE_IPS cfg).

(** Opening the session, as [send_files_and_execute] does it. *)
Definition open_session (W : World) (cfg : Config) (ip : str) : M SSHClient :=
  create_ssh_client W ip (REMOTE_USER cfg)
    (if USE_SSH_KEY cfg then None else Some (REMOTE_PASSWORD cfg))
    (if USE_SSH_KEY cfg then Some (SSH_KEY_PATH cfg) else None).

(** The names the transfer loop appends to [transferred_files] on a
    listing: the regular files, up to the first [scp.put] that raises. *)
Fixpoint copied (W : World) (cfg : Config) (host : str) (listing : list str)
  : list str :=
  match listing with
  | [] => []
  | filename :: rest =>
      if w_isfile W (os_path_join (LOCAL_DIR cfg) filename) then
        match w_put W host (os_path_join (LOCAL_DIR cfg) filename) with
        | None => filename :: copied W cfg host rest
        | Some _ => []
        end
      else copied W cfg host rest
  end.

(** The TransferRecord of a host: what [transferred_files] holds once the
    transfer loop has run. *)
Definition transfer_record (W : World) (cfg : Config) (host : str) : list str :=
  match w_scp_open W host with
  | Some _ => []
  | None =>
      match w_listdir W (LOCAL_DIR cfg) with
      | Return listing => copied W cfg host listing
      | Raise _ => []
      end
  end.

(** The workflow of [ip] got as far as running the target. *)
Definition reaches_execution (W : World) (cfg : Config) (ip : str) : Prop :=
  In (ExecCommand ip (run_cmd cfg)) (trace (send_files_and_execute W cfg ip)).



(** The entries of the detailed log that report the output of a host. *)
Definition output_entries (ip : str) (t : list Effect) : list str :=
  filter (startswith (ip ++ u": OUTPUT → ")) (logged false t).

(** The effects of the transfer stage: the SCP session and its puts, and
    lines in the detailed log. *)
Definition transfer_effect (e : Effect) : bool :=
  match e with
  | ScpEnter _ | ScpPut _ _ _ | ScpExit _ => true
  | LogMessage _ false => true
  | _ => false
  end.

(** The transfer stage of the workflow: the [with SCPClient] block. *)
Definition transfer_stage (W : World) (cfg : Config) (ip : str) : M (list str) :=
  with_SCPClient W {| ssh_peer := ip |} (fun scp =>
    bind (listdir W (LOCAL_DIR cfg)) (fun listing => transfer W cfg scp ip listing [])).

(** The messages of the workflow. *)
Definition connecting_msg (ip : str) : str := u"[→] " ++ ip ++ u": Connecting...".

Definition missing_msg (cfg : Config) (ip : str) : str :=
  ip ++ u": ❌ Local directory '" ++ LOCAL_DIR cfg ++ u"' missing. Skipping.".

Definition success_msg (ip : str) : str := ip ++ u": ✅ Script executed successfully.".

Definition output_msg (ip o : str) : str := ip ++ u": OUTPUT → " ++ o.

Definition exception_msg (ip : str) (x : exception) : str := ip ++ u": ❌ " ++ exc_str x.

(** The output entry, when there is output to report. *)
Definition output_log (ip o : str) : list Effect :=
  if truthy o then [LogMessage (output_msg ip o) false] else [].

Definition cleaned_up (ip : str) (files : list str) : list Effect :=
  [Print (u"[🧹] " ++ ip ++ u": Cleaned up "
          ++ str_of_N (N.of_nat (List.length files)) ++ u" transferred files.")].

(** The streams of the target were read and decoded. *)
Definition streams_read (W : World) (cfg : Config) (ip : str) (o e : str) : Prop :=
  exists out err,
    w_exec W ip (run_cmd cfg) = Return (out, err)
    /\ decode out = Some o /\ decode err = Some e.


(** Attempts to transfer a file, and to execute a command. *)
Definition is_transfer (e : Effect) : bool :=
  match e with
  | ScpEnter _ | ScpPut _ _ _ | ScpExit _ => true
  | _ => false
  end.


(** The text a trace adds to one of the logs, the clock having been read
    [n] times before. *)
Fixpoint rendered (W : World) (error : bool) (t : list Effect) (n : nat) : str :=
  match t with
  | [] => []
  | LogMessage msg e :: rest =>
      (if Bool.eqb e error
       then strftime_stamp (w_clock W n) ++ u" " ++ msg ++ [newline]
       else [])
      ++ rendered W error rest (S n)
  | _ :: rest => rendered W error rest n
  end.

(** The host a network action goes to. *)
Definition host_of (e : Effect) : option str :=
  match e with
  | Ping h | Connect h _ _ | ScpEnter h | ScpPut h _ _ | ScpExit h
  | ExecCommand h _ | SshClose h => Some h
  | Print _ | LogMessage _ _ | EnsureLogDir => None
  end.

(** The network actions of a trace on one host, in order. *)
Definition on_host (host : str) (t : list Effect) : list Effect :=
  filter (fun e => match host_of e with
                   | Some h => str_eqb h host
                   | None => false
                   end) t.

(** A trace whose network actions all go to one host. *)
Definition local_to (host : str) (t : list Effect) : Prop :=
  forall e h, In e t -> host_of e = Some h -> h = host.

(** The steps of two workers, each in its own order, taken in turn in some
    order. *)
Inductive interleaved : list Effect -> list Effect -> list Effect -> Prop :=
| interleaved_nil : interleaved [] [] []
| interleaved_left e a b c :
    interleaved a b c -> interleaved (e :: a) b (e :: c)
| interleaved_right e a b c :
    interleaved a b c -> interleaved a (e :: b) (e :: c).

(** What a pool of workers does: their traces, interleaved. *)
Inductive pooled : list (list Effect) -> list Effect -> Prop :=
| pooled_nil : pooled [] []
| pooled_cons t ts rest all :
    pooled ts rest -> interleaved t rest all -> pooled (t :: ts) all.

(* ===================================================================== *)
(** ** The gateway and the local address, in full *)
(* ===================================================================== *)

(** The characters [str.splitlines] breaks a text at. *)
Definition is_line_boundary (c : N) : bool :=
  ((c =? 10) || (c =? 11) || (c =? 12) || (c =? 13) || (c =? 28) || (c =? 29)
   || (c =? 30) || (c =? 133) || (c =? 8232) || (c =? 8233))%N.

(** [s.splitlines()], [cur] being the line read so far; a carriage return
    followed by a line feed is one boundary. *)
Fixpoint splitlines_from (s cur : str) : list str :=
  match s with
  | [] => if truthy cur then [cur] else []
  | c :: r =>
      if (c =? 13)%N then
        match r with
        | d :: r' => if (d =? 10)%N then cur :: splitlines_from r' []
                     else cur :: splitlines_from r []
        | [] => cur :: splitlines_from r []
        end
      else if is_line_boundary c then cur :: splitlines_from r []
      else splitlines_from r (cur ++ [c])
  end.

Definition str_splitlines (s : str) : list str := splitlines_from s [].

(** [s.split()]: the runs of characters between white space. *)
Fixpoint split_from (s cur : str) : list str :=
  match s with
  | [] => if truthy cur then [cur] else []
  | c :: r =>
      if is_space c
      then (if truthy cur then cur :: split_from r [] else split_from r [])
      else split_from r (cur ++ [c])
  end.

Definition str_split (s : str) : list str := split_from s [].

(** The loop of [get_gateway_ip] over the lines of the routing table: the
    first line that starts with [default] decides, and [line.split()[2]]
    raises IndexError when that line has fewer than three fields. *)
Fixpoint scan_routes (lines : list str) : result (option str) :=
  match lines with
  | [] => Return None
  | line :: rest =>
      if startswith (u"default") line then
        match nth_error (str_split line) 2 with
        | Some field => Return (Some field)
        | None => Raise (Exception (u"list index out of range"))
        end
      else scan_routes rest
  end.

(** [get_gateway_ip()], given what [subprocess.check_output("ip route")]
    does: the bytes it returns, or the exception it raises.  The bare
    [except] turns every exception into [None]. *)
Definition get_gateway_ip_of (W : World) (ip_route : result bytes) : option str :=
  match
    match ip_route with
    | Return data =>
        match decode data with
        | Some output => scan_routes (str_splitlines output)
        | None => Raise (Exception (w_decode_error W data))
        end
    | Raise e => Raise e
    end
  with
  | Return (Some gateway) => Some gateway
  | Return None => None
  | Raise _ => None
  end.

(** The calls [get_local_ip] makes on its socket. *)
Inductive SocketCall :=
| SocketCreate
| SocketConnect (host : str) (port : N)
| SocketGetsockname
| SocketClose.

(** What the socket layer answers: whether creating the socket or
    [connect] raises, and what [getsockname()[0]] gives. *)
Record SocketWorld := {
  sw_create : option exception;
  sw_connect : option exception;
  sw_getsockname : result IPv4Address
}.

(** [get_local_ip()] with its socket: the socket is made outside the [try];
    then the [try] body, then the [finally]. *)
Definition get_local_ip_calls (sw : SocketWorld)
  : list SocketCall * result IPv4Address :=
  match sw_create sw with
  | Some e => ([SocketCreate], Raise e)
  | None =>
      let body :=
        match sw_connect sw with
        | Some e => ([SocketConnect (u"8.8.8.8") 80], Raise e)
        | None =>
            match sw_getsockname sw with
            | Return a => ([SocketConnect (u"8.8.8.8") 80; SocketGetsockname], Return a)
            | Raise e => ([SocketConnect (u"8.8.8.8") 80; SocketGetsockname], Raise e)
            end
        end in
      (SocketCreate :: fst body ++ [SocketClose], snd body)
  end.

(** A routing table as [ip route] prints it, default route last. *)
Definition sample_routes : bytes :=
  bytes_of_string "192.168.1.0/24 dev eth0 proto kernel scope link src 192.168.1.10"
  ++ [x0a] ++ bytes_of_string "default via 192.168.1.1 dev eth0 proto dhcp metric 100"
  ++ [x0a].

(** A routing table whose first default route is cut short. *)
Definition short_routes : bytes :=
  bytes_of_string "default via"
  ++ [x0a] ++ bytes_of_string "default via 192.168.1.1 dev eth0 proto dhcp metric 100"
  ++ [x0a].

(* ===================================================================== *)
(** ** More notions used in the statements *)
(* ===================================================================== *)

(** The two commands every workflow starts its remote work with. *)
Definition first_commands (cfg : Config) (ip : str) : list Effect :=
  [ExecCommand ip (chmod_cmd cfg); ExecCommand ip (run_cmd cfg)].


(** The entries of the detailed log that report a copied file. *)
Definition copied_entries (ip : str) (t : list Effect) : list str :=
  filter (startswith (ip ++ u": Copied ")) (logged false t).

(** A trace all of whose effects satisfy [P]. *)
Definition only (P : Effect -> Prop) (t : list Effect) : Prop :=
  forall e, In e t -> P e.

Definition is_connect (e : Effect) : bool :=
  match e with
  | Connect _ _ _ => true
  | _ => false
  end.

(** The script-error entry of a host. *)
Definition script_error_msg (ip e : str) : str := ip ++ u": ⚠ Script error: " ++ e.

(** A put on the host or a line in the detailed log. *)
Definition put_or_log (ip : str) (e : Effect) : Prop :=
  (exists p r, e = ScpPut ip p r) \/ (exists msg, e = LogMessage msg false).

(** A command on the host, a line in a log, or a line on the console. *)
Definition command_or_report (ip : str) (e : Effect) : Prop :=
  (exists c, e = ExecCommand ip c) \/ (exists msg b, e = LogMessage msg b)
  \/ (exists text, e = Print text) \/ e = SshClose ip.



Definition deleted_entries (ip : str) (t : list Effect) : list str :=
  filter (startswith (ip ++ u": Deleted ")) (logged false t).

(** The session opened and the source directory is there: the workflow
    gets to its transfer stage. *)
Definition reaches_transfer (W : World) (cfg : Config) (ip : str) : Prop :=
  (exists c, outcome (open_session W cfg ip) = Return c)
  /\ w_isdir W (LOCAL_DIR cfg) = true.



(** The hosts [main] deploys to: its [active_ips], for the local address
    the socket reported. *)
Definition targets (W : World) (cfg : Config) (local : IPv4Address) : list str :=
  active_ips cfg (map (ping_ip W) (ip_list local)) (ip_str local) (get_gateway_ip W).

(** The banner [main] prints before the scan. *)
Definition banner (W : World) (cfg : Config) (local : IPv4Address) : list Effect :=
  [Print rule;
   Print (u"🔥 Raspberry Pi Mass Deployment (Dual Logging + Auto Cleanup)");
   Print rule;
   Print (u"Local IP:    " ++ ip_str local);
   Print (u"Gateway IP:  " ++ str_of_option (get_gateway_ip W));
   Print (u"Threads:     " ++ str_of_N (MAX_PARALLEL_TASKS cfg));
   Print (u"Logs Folder: " ++ LOG_DIR cfg);
   Print rule].

(** The entries [main] itself writes to the logs. *)
Definition started_msg (W : World) : str :=
  [newline] ++ u"==== Deployment Started at " ++ w_ctime W ++ u" ====".

Definition addresses_msg (W : World) (local : IPv4Address) : str :=
  u"Local IP: " ++ ip_str local ++ u", Gateway: " ++ str_of_option (get_gateway_ip W).

Definition finished_msg (W : World) : str :=
  u"==== Deployment Finished (" ++ w_total_time W ++ u"s) ====".

Definition no_devices_msg : str := u"No active devices found.".

(** What [main] prints between the scan and the deployment. *)
Definition found (ips : list str) : list Effect :=
  Print (u"[+] Found " ++ str_of_N (N.of_nat (List.length ips)) ++ u" active devices.")
  :: map (fun ip => Print (u" - " ++ ip)) ips.

Definition completed_msg (W : World) (ips : list str) : str :=
  [newline] ++ u"✅ Deployment completed for "
  ++ str_of_N (N.of_nat (List.length ips)) ++ u" devices in "
  ++ w_total_time W ++ u"s.".

(** The probe of [ip] ran and ended with exit status 0. *)
Definition answers (W : World) (ip : str) : bool :=
  match w_ping W ip with
  | Return 0%Z => true
  | _ => false
  end.

(** The line breaks inside the messages a trace sends to one of the logs. *)
Definition breaks_within (error : bool) (t : list Effect) : nat :=
  list_sum (map line_breaks (logged error t)).

(* ===================================================================== *)
(** ** Notions and samples for the pools and the faults *)
(* ===================================================================== *)

(** The message of the [except] clause of the collecting loop. *)
Definition uncaught_msg (ip : str) (x : exception) : str :=
  u"❌ Uncaught error on " ++ ip ++ u": " ++ exc_str x.

(** The steps of the workers of the two pools, in the order the scheduler
    has them.  Without faults the main thread, the first of the threads of
    the deployment, has nothing to do but wait. *)
Definition probes (W : World) (local : IPv4Address) : list Effect :=
  merge (w_scan_turns W) (map (fun ip => [Ping ip]) (ip_list local)).

Definition workers (W : World) (cfg : Config) (ips : list str) : list Effect :=
  merge (w_deploy_turns W)
        ([] :: map (fun ip => trace (send_files_and_execute W cfg ip)) ips).

(** A session call: anything on the network but a probe. *)
Definition is_session (e : Effect) : bool :=
  match e with
  | Connect _ _ _ | ScpEnter _ | ScpPut _ _ _ | ScpExit _
  | ExecCommand _ _ | SshClose _ => true
  | Ping _ | Print _ | LogMessage _ _ | EnsureLogDir => false
  end.

(** The error log cannot be written (it belongs to another user); the
    console and the detailed log are in order. *)
Definition sealed_error_log : Faults := {|
  f_makedirs := None;
  f_print := fun _ => None;
  f_log := fun _ error =>
    if error
    then Some (Exception (u"[Errno 13] Permission denied: '/home/phason/Logs/error_log.txt'"))
    else None
|}.

(** The network of [refusing_world] with a scheduler that lets the three
    workflows take turns. *)
Definition busy_world : World := {|
  w_clock := w_clock sample_world;
  w_ctime := w_ctime sample_world;
  w_total_time := w_total_time sample_world;
  w_isdir := w_isdir sample_world;
  w_listdir := w_listdir refusing_world;
  w_isfile := w_isfile sample_world;
  w_local_ip := w_local_ip sample_world;
  w_gateway_ip := w_gateway_ip sample_world;
  w_ping := w_ping refusing_world;
  w_load_key := w_load_key sample_world;
  w_connect := w_connect refusing_world;
  w_scp_open := w_scp_open sample_world;
  w_put := w_put sample_world;
  w_exec := w_exec sample_world;
  w_decode_error := w_decode_error sample_world;
  w_scan_turns := [7; 3; 250; 0]%nat;
  w_deploy_turns := [3; 1; 2; 1; 3; 0; 3; 2; 1; 1; 3]%nat;
  w_completion_turns := [1; 0]%nat
|}.

(** A configuration that asks for a pool without workers. *)
Definition no_workers : Config := {|
  REMOTE_USER := REMOTE_USER source_config;
  REMOTE_PASSWORD := REMOTE_PASSWORD source_config;
  REMOTE_DIR := REMOTE_DIR source_config;
  LOCAL_DIR := LOCAL_DIR source_config;
  TARGET_FILE_TO_RUN := TARGET_FILE_TO_RUN source_config;
  USE_SSH_KEY := USE_SSH_KEY source_config;
  SSH_KEY_PATH := SSH_KEY_PATH source_config;
  EXCLUDE_IPS := EXCLUDE_IPS source_config;
  MAX_PARALLEL_TASKS := 0;
  LOG_DIR := LOG_DIR source_config
|}.


(* ===================================================================== *)
(** * Properties *)
(* ===================================================================== *)

(** ** Bounded checks by evaluation *)

Lemma forallb_below (P : N -> bool) (hi : N) :
  forallb P (map N.of_nat (seq 0 (N.to_nat hi))) = true ->
  forall n, (n < hi)%N -> P n = true.
Proof.
  intros H n Hn.
  rewrite forallb_forall in H. apply H.
  rewrite in_map_iff. exists (N.to_nat n). split.
  - apply N2Nat.id.
  - apply in_seq. lia.
Qed.

Lemma year_field n :
  (1000 <= n <= 9999)%N -> digits_of_width 4 (str_of_N n) = true.
Proof.
  intros [Hlo Hhi].
  pose (P := fun n => (n <? 1000)%N || digits_of_width 4 (str_of_N n)).
  assert (HP : P n = true).
  { apply (forallb_below P 10000%N); [vm_compute; reflexivity | lia]. }
  unfold P in HP. apply orb_true_iff in HP. destruct HP as [HP | HP]; auto.
  apply N.ltb_lt in HP. lia.
Qed.

Lemma two_digit_field n :
  (n <= 99)%N -> digits_of_width 2 (zero_pad 2 n) = true.
Proof.
  intros Hn.
  apply (forallb_below (fun n => digits_of_width 2 (zero_pad 2 n)) 100%N);
    [vm_compute; reflexivity | lia].
Qed.

Lemma digits_4 s :
  digits_of_width 4 s = true ->
  exists a b c d, s = [a; b; c; d] /\ forallb is_digit [a; b; c; d] = true.
Proof.
  unfold digits_of_width. intros H. apply andb_true_iff in H. destruct H as [L D].
  destruct s as [|a [|b [|c [|d [|]]]]]; try discriminate.
  exists a, b, c, d. auto.
Qed.

Lemma digits_2 s :
  digits_of_width 2 s = true ->
  exists a b, s = [a; b] /\ forallb is_digit [a; b] = true.
Proof.
  unfold digits_of_width. intros H. apply andb_true_iff in H. destruct H as [L D].
  destruct s as [|a [|b [|]]]; try discriminate.
  exists a, b. auto.
Qed.

(** The stamp of a calendar time has the shape [[YYYY-MM-DD HH:MM:SS]]. *)
Lemma strftime_stamp_shape t : wf_time t -> is_stamp (strftime_stamp t) = true.
Proof.
  intros (Hy & Hm & Hd & Hh & Hi & Hs).
  destruct (digits_4 _ (year_field _ Hy)) as (y1 & y2 & y3 & y4 & Ey & Dy).
  destruct (digits_2 _ (two_digit_field (tm_mon t) ltac:(lia))) as (m1 & m2 & Em & Dm).
  destruct (digits_2 _ (two_digit_field (tm_mday t) ltac:(lia))) as (d1 & d2 & Ed & Dd).
  destruct (digits_2 _ (two_digit_field (tm_hour t) ltac:(lia))) as (h1 & h2 & Eh & Dh).
  destruct (digits_2 _ (two_digit_field (tm_min t) ltac:(lia))) as (i1 & i2 & Ei & Di).
  destruct (digits_2 _ (two_digit_field (tm_sec t) ltac:(lia))) as (s1 & s2 & Es & Ds).
  unfold strftime_stamp. rewrite Ey, Em, Ed, Eh, Ei, Es.
  change (is_stamp [91; y1; y2; y3; y4; 45; m1; m2; 45; d1; d2; 32; h1; h2; 58;
                    i1; i2; 58; s1; s2; 93]%N = true).
  unfold is_stamp. rewrite Dy, Dm, Dd, Dh, Di, Ds. reflexivity.
Qed.

Lemma line_breaks_app a b : line_breaks (a ++ b) = (line_breaks a + line_breaks b)%nat.
Proof. unfold line_breaks. apply count_occ_app. Qed.

Lemma no_break_count s :
  forallb (fun c => negb (c =? newline)%N) s = true -> line_breaks s = 0%nat.
Proof.
  intros H. unfold line_breaks. apply count_occ_not_In.
  intros Hin. rewrite forallb_forall in H. specialize (H _ Hin).
  rewrite N.eqb_refl in H. discriminate.
Qed.

Lemma is_stamp_no_break s : is_stamp s = true -> line_breaks s = 0%nat.
Proof.
  unfold is_stamp. intros H.
  do 21 (destruct s as [|? s]; try discriminate). destruct s; try discriminate.
  apply no_break_count.
  unfold is_digit, forallb in H.
  repeat match goal with
         | H : (_ && _)%bool = true |- _ => apply andb_true_iff in H; destruct H
         | H : (_ =? _)%N = true |- _ => apply N.eqb_eq in H
         | H : (_ <=? _)%N = true |- _ => apply N.leb_le in H
         end.
  unfold forallb, newline.
  repeat (apply andb_true_intro; split); try reflexivity;
    apply negb_true_iff, N.eqb_neq; lia.
Qed.

(* ===================================================================== *)
(** ** The logger *)
(* ===================================================================== *)

Section LoggerFacts.

Variable W : World.
Variable cfg : Config.

(** Creating the directory twice is creating it once. *)
Lemma ensure_log_dir_idempotent st :
  snd (ensure_log_dir (snd (ensure_log_dir st))) = snd (ensure_log_dir st).
Proof. reflexivity. Qed.

Lemma ensure_log_dir_keeps_logs st :
  let st' := snd (ensure_log_dir st) in
  fst (ensure_log_dir st) = Return tt /\ log_dir_exists st' = true
  /\ detailed_log st' = detailed_log st /\ error_log st' = error_log st.
Proof. cbv. auto. Qed.

(** Without the directory the append raises: the order of the two steps of
    [log_message] matters. *)
Lemma append_file_needs_dir f text st :
  log_dir_exists st = false ->
  exists e, append_file cfg f text st = (Raise e, st).
Proof. intros H. unfold append_file. rewrite H. eauto. Qed.

(** What one call does to the disk, whatever its state was. *)
Lemma log_message_run msg error st :
  let line := strftime_stamp (w_clock W (clock_reads st)) ++ u" " ++ msg ++ [newline] in
  log_message W cfg msg error st =
    (Return tt,
     {| log_dir_exists := true;
        detailed_log := if error then detailed_log st else detailed_log st ++ line;
        error_log := if error then error_log st ++ line else error_log st;
        clock_reads := S (clock_reads st) |}).
Proof. destruct error; reflexivity. Qed.

Lemma log_line_breaks stamp msg :
  is_stamp stamp = true ->
  line_breaks (stamp ++ u" " ++ msg ++ [newline]) = S (line_breaks msg).
Proof.
  intros H. rewrite !line_breaks_app, (is_stamp_no_break _ H).
  change (line_breaks (u" ")) with 0%nat. change (line_breaks [newline]) with 1%nat.
  lia.
Qed.

End LoggerFacts.




(* ===================================================================== *)
(** ** The scanned range *)
(* ===================================================================== *)

Section Range.

Local Open Scope Z_scope.

Lemma in_range a b x : In x (range a b) <-> a <= x < b.
Proof.
  unfold range. rewrite in_map_iff. split.
  - intros (i & <- & Hi). apply in_seq in Hi. lia.
  - intros H. exists (Z.to_nat (x - a)). split; [lia|].
    apply in_seq. lia.
Qed.



(** The /24 netmask keeps the address up to its last byte. *)
Lemma network_address_24 a :
  0 <= a < 2 ^ 32 ->
  network_address (ip_interface_network a 24) = 256 * (a / 256).
Proof.
  intros Ha. cbn [network_address ip_interface_network].
  change (netmask 24) with (Z.ldiff (Z.ones 32) (Z.ones 8)).
  assert (E : Z.land a (Z.ldiff (Z.ones 32) (Z.ones 8))
              = Z.ldiff (Z.land a (Z.ones 32)) (Z.ones 8)).
  { apply Z.bits_inj'. intros n Hn.
    rewrite Z.land_spec, !Z.ldiff_spec, Z.land_spec.
    destruct (Z.testbit a n), (Z.testbit (Z.ones 32) n), (Z.testbit (Z.ones 8) n);
      reflexivity. }
  rewrite E, Z.land_ones, Z.mod_small, Z.ldiff_ones_r by lia.
  rewrite Z.shiftl_mul_pow2, Z.shiftr_div_pow2 by lia.
  change (2 ^ 8) with 256. lia.
Qed.

Lemma broadcast_address_24 a :
  0 <= a < 2 ^ 32 ->
  broadcast_address (ip_interface_network a 24) = 256 * (a / 256) + 255.
Proof.
  intros Ha. unfold broadcast_address. rewrite network_address_24 by exact Ha.
  cbn [prefixlen ip_interface_network].
  change (hostmask 24) with (Z.ones 8).
  assert (E : Z.land (256 * (a / 256)) (Z.ones 8) = 0).
  { rewrite Z.land_ones by lia. change (2 ^ 8) with 256.
    rewrite Z.mul_comm. apply Z.mod_mul. lia. }
  pose proof (Z.add_lor_land (256 * (a / 256)) (Z.ones 8)) as L.
  rewrite E in L. assert (O : Z.ones 8 = 255) by reflexivity. lia.
Qed.

(** [network.hosts()] of the /24 around [a]: the 254 addresses between. *)
Lemma candidates_range a :
  0 <= a < 2 ^ 32 ->
  candidates a = range (256 * (a / 256) + 1) (256 * (a / 256) + 255).
Proof.
  intros Ha. unfold candidates, hosts.
  rewrite broadcast_address_24, network_address_24 by exact Ha.
  reflexivity.
Qed.

End Range.

(* --------------------------------------------------------------------- *)
(** *** The candidates as text *)



Lemma ip_str_nonempty x : ip_str x <> [].
Proof.
  unfold ip_str, octets. cbn [map join]. intros H.
  apply app_eq_nil in H. destruct H as [_ H]. discriminate H.
Qed.


Lemma local_192_168_1_10_range : (0 <= local_192_168_1_10 < 2 ^ 32)%Z.
Proof. vm_compute. split; [discriminate | reflexivity]. Qed.









(** On 192.168.1.10/16 the usable host 192.168.2.1 is not proposed. *)
Lemma discovery_misses_wider_subnets :
  let n := ip_interface_network local_192_168_1_10 16 in
  (network_address n < of_octets 192 168 2 1 < broadcast_address n)%Z
  /\ ~ In (of_octets 192 168 2 1) (candidates local_192_168_1_10).
Proof.
  split.
  - vm_compute. split; reflexivity.
  - rewrite candidates_range by exact local_192_168_1_10_range.
    rewrite in_range. vm_compute. intros [_ H]. discriminate H.
Qed.

(* ===================================================================== *)
(** ** The exclusion filter *)
(* ===================================================================== *)

Section Filter.

Variable cfg : Config.

Lemma str_eqb_eq a b : str_eqb a b = true <-> a = b.
Proof.
  unfold str_eqb. destruct (list_eq_dec N.eq_dec a b); split; auto; discriminate.
Qed.

Lemma str_eqb_refl a : str_eqb a a = true.
Proof. now apply str_eqb_eq. Qed.

Lemma str_eqb_neq a b : str_eqb a b = false <-> a <> b.
Proof.
  unfold str_eqb. destruct (list_eq_dec N.eq_dec a b); split; auto;
    try discriminate; contradiction.
Qed.

Lemma existsb_str_eqb a l : existsb (str_eqb a) l = true <-> In a l.
Proof.
  rewrite existsb_exists. split.
  - intros (x & Hx & E). apply str_eqb_eq in E. now subst.
  - intros H. exists a. split; [exact H | apply str_eqb_refl].
Qed.

Lemma truthy_nonempty (a : str) : truthy a = true <-> a <> [].
Proof. destruct a; simpl; split; auto; try discriminate; contradiction. Qed.

Lemma eligible_spec local_ip gateway_ip a :
  eligible cfg local_ip gateway_ip (Some a) = true
  <-> a <> [] /\ ~ excluded cfg local_ip gateway_ip a.
Proof.
  unfold eligible, excluded.
  rewrite !andb_true_iff, !negb_true_iff, truthy_nonempty, str_eqb_neq.
  assert (X : existsb (str_eqb a) (EXCLUDE_IPS cfg) = false
              <-> ~ In a (EXCLUDE_IPS cfg)).
  { rewrite <- existsb_str_eqb. symmetry. apply not_true_iff_false. }
  assert (G : opt_str_eqb (Some a) gateway_ip = false <-> gateway_ip <> Some a).
  { destruct gateway_ip as [g|]; simpl.
    - rewrite str_eqb_neq. split; intros H E; apply H; congruence.
    - split; [discriminate | reflexivity]. }
  rewrite G, X. tauto.
Qed.

Lemma active_ips_filter ping_results local_ip gateway_ip :
  active_ips cfg ping_results local_ip gateway_ip
  = filter (fun a => eligible cfg local_ip gateway_ip (Some a)) (live_hosts ping_results).
Proof.
  induction ping_results as [|[a|] rest IH]; simpl.
  - reflexivity.
  - rewrite IH. reflexivity.
  - exact IH.
Qed.

Lemma in_live_hosts ping_results a :
  In a (live_hosts ping_results) <-> In (Some a) ping_results.
Proof.
  unfold live_hosts. rewrite in_flat_map. split.
  - intros ([b|] & Hb & Ha); simpl in Ha; [|contradiction].
    destruct Ha as [->|[]]. exact Hb.
  - intros H. exists (Some a). split; [exact H | now left].
Qed.

(** A probe answers with the address it was given, or not at all. *)
Lemma ping_results_are_candidates W local a :
  In (Some a) (map (ping_ip W) (ip_list local)) -> In a (ip_list local).
Proof.
  rewrite in_map_iff. intros (b & Hb & Hin). unfold ping_ip in Hb.
  destruct (w_ping W b) as [[| |]|]; try discriminate.
  injection Hb as <-. exact Hin.
Qed.

End Filter.

(** C5.  The list of hosts to deploy to is the list of live hosts with the
    excluded ones (self, gateway, block-list) struck out: same order, same
    multiplicities, nothing added.  A live host is kept exactly when it is
    not excluded; the test [if ip] drops nothing that discovery reports,
    since no address renders as the empty text. *)
Theorem exclusion_filter_exact (cfg : Config) (ping_results : list (option str))
  (local_ip : str) (gateway_ip : option str) :
  active_ips cfg ping_results local_ip gateway_ip
  = filter (fun a => eligible cfg local_ip gateway_ip (Some a)) (live_hosts ping_results)
  /\ (forall a, In a (active_ips cfg ping_results local_ip gateway_ip)
                <-> In a (live_hosts ping_results) /\ a <> []
                    /\ ~ excluded cfg local_ip gateway_ip a)
  /\ (forall W local a,
         let scan := map (ping_ip W) (ip_list local) in
         In a (active_ips cfg scan local_ip gateway_ip)
         <-> In a (live_hosts scan) /\ ~ excluded cfg local_ip gateway_ip a).
Proof.
  split; [apply active_ips_filter|]. split.
  - intros a. rewrite active_ips_filter, filter_In, eligible_spec. tauto.
  - intros W local a scan. rewrite active_ips_filter, filter_In, eligible_spec.
    split; [tauto|]. intros [Hlive Hex]. repeat split; auto.
    apply in_live_hosts in Hlive. apply ping_results_are_candidates in Hlive.
    unfold ip_list in Hlive. apply in_map_iff in Hlive.
    destruct Hlive as (x & <- & _). apply ip_str_nonempty.
Qed.

(** The filter on the sample network: the Pi stays, the scanning machine
    and the gateway would go. *)
Example exclusion_filter_sample :
  active_ips source_config
    [Some (u"192.168.1.1"); None; Some pi; Some (u"192.168.1.10")]
    (u"192.168.1.10") (Some (u"192.168.1.1"))
  = [pi].
Proof. vm_compute. reflexivity. Qed.

(* ===================================================================== *)
(** ** Reading traces *)
(* ===================================================================== *)

Section Readers.

Lemma logged_app b t1 t2 : logged b (t1 ++ t2) = logged b t1 ++ logged b t2.
Proof.
  induction t1 as [|e t1 IH]; simpl; [reflexivity|].
  destruct e; auto. destruct (Bool.eqb error b); simpl; now rewrite IH.
Qed.

Lemma commands_app h t1 t2 : commands h (t1 ++ t2) = commands h t1 ++ commands h t2.
Proof.
  induction t1 as [|e t1 IH]; simpl; [reflexivity|].
  destruct e; auto. destruct (str_eqb host h); simpl; now rewrite IH.
Qed.

Lemma puts_app h t1 t2 : puts h (t1 ++ t2) = puts h t1 ++ puts h t2.
Proof.
  induction t1 as [|e t1 IH]; simpl; [reflexivity|].
  destruct e; auto. destruct (str_eqb host h); simpl; now rewrite IH.
Qed.

Lemma deletions_app h t1 t2 :
  deletions h (t1 ++ t2) = deletions h t1 ++ deletions h t2.
Proof. unfold deletions. now rewrite commands_app, filter_app. Qed.

Lemma closes_app h t1 t2 : closes h (t1 ++ t2) = (closes h t1 + closes h t2)%nat.
Proof. unfold closes. now rewrite filter_app, length_app. Qed.

Lemma output_entries_app ip t1 t2 :
  output_entries ip (t1 ++ t2) = output_entries ip t1 ++ output_entries ip t2.
Proof. unfold output_entries. now rewrite logged_app, filter_app. Qed.

Lemma startswith_app p s : startswith p (p ++ s) = true.
Proof. induction p as [|c p IH]; simpl; [reflexivity|]. now rewrite N.eqb_refl. Qed.

Lemma startswith_app_same p a b : startswith (p ++ a) (p ++ b) = startswith a b.
Proof. induction p as [|c p IH]; simpl; [reflexivity|]. now rewrite N.eqb_refl. Qed.

Lemma startswith_prefix p s : startswith p s = true -> exists r, s = p ++ r.
Proof.
  revert s. induction p as [|c p IH]; intros s H; simpl in *.
  - now exists s.
  - destruct s as [|d s]; [discriminate|].
    apply andb_true_iff in H. destruct H as [E H]. apply N.eqb_eq in E. subst d.
    destruct (IH _ H) as [r ->]. now exists r.
Qed.

End Readers.

(* ===================================================================== *)
(** ** The two loops *)
(* ===================================================================== *)

Section Loops.

Variable W : World.
Variable cfg : Config.

Lemma is_deletion_cleanup_cmd f : is_deletion (cleanup_cmd cfg f) = true.
Proof. unfold is_deletion, cleanup_cmd. apply startswith_app. Qed.

Lemma is_deletion_chmod_cmd : is_deletion (chmod_cmd cfg) = false.
Proof. reflexivity. Qed.

Lemma is_deletion_run_cmd : is_deletion (run_cmd cfg) = false.
Proof. reflexivity. Qed.


Lemma cleanup_cmd_not_run f : cleanup_cmd cfg f <> run_cmd cfg.
Proof.
  intros H. pose proof (is_deletion_cleanup_cmd f) as D.
  rewrite H, is_deletion_run_cmd in D. discriminate.
Qed.

Lemma chmod_cmd_not_run : chmod_cmd cfg <> run_cmd cfg.
Proof. unfold chmod_cmd, run_cmd. intros H. discriminate H. Qed.

(** The transfer loop only puts files and writes to the detailed log; when
    it returns, it returns the record. *)
Lemma transfer_shape h ip listing acc :
  let m := transfer W cfg {| scp_peer := h |} ip listing acc in
  forallb transfer_effect (trace m) = true
  /\ output_entries ip (trace m) = []
  /\ (forall x, outcome m = Return x -> x = acc ++ copied W cfg h listing).
Proof.
  revert acc. induction listing as [|f rest IH]; intros acc; cbn [transfer].
  - cbn. repeat split. intros x [= <-]. now rewrite app_nil_r.
  - cbn [copied]. destruct (w_isfile W (os_path_join (LOCAL_DIR cfg) f)).
    + unfold scp_put, bind, emit, log. cbn [scp_peer].
      destruct (w_put W h (os_path_join (LOCAL_DIR cfg) f)) as [e|].
      * cbn. repeat split. intros x Hx. discriminate Hx.
      * specialize (IH (acc ++ [f])). cbn zeta in IH.
        destruct (transfer W cfg {| scp_peer := h |} ip rest (acc ++ [f]))
          as [t [x|e]]; cbn in *; destruct IH as (S1 & S2 & S3).
        -- repeat split; auto.
           ++ unfold output_entries in *. cbn.
              rewrite startswith_app_same. exact S2.
           ++ intros y Hy. rewrite (S3 y Hy), <- app_assoc. reflexivity.
        -- repeat split; auto.
           ++ unfold output_entries in *. cbn.
              rewrite startswith_app_same. exact S2.
           ++ intros y Hy. discriminate Hy.
    + apply IH.
Qed.

End Loops.

Section Stages.

Variable W : World.
Variable cfg : Config.

Lemma transfer_effect_readers t :
  forallb transfer_effect t = true ->
  (forall h, commands h t = []) /\ (forall h, closes h t = 0%nat)
  /\ logged true t = [].
Proof.
  induction t as [|e t IH]; intros H; [repeat split|].
  cbn [forallb] in H. apply andb_true_iff in H. destruct H as [He Ht].
  destruct (IH Ht) as (C & S & L).
  destruct e; try discriminate He; cbn; repeat split; auto.
  destruct error; [discriminate He | exact L].
Qed.

(** The [with SCPClient] block: its effects, and what it returns. *)
Lemma transfer_stage_shape ip :
  let m := transfer_stage W cfg ip in
  forallb transfer_effect (trace m) = true
  /\ output_entries ip (trace m) = []
  /\ (forall x, outcome m = Return x -> x = transfer_record W cfg ip).
Proof.
  unfold transfer_stage, with_SCPClient, transfer_record, listdir.
  cbn [ssh_peer scp_peer].
  destruct (w_scp_open W ip) as [y|].
  { cbn. repeat split. intros x Hx. discriminate Hx. }
  destruct (w_listdir W (LOCAL_DIR cfg)) as [listing|e].
  - pose proof (transfer_shape W cfg ip ip listing []) as H. cbn zeta in H.
    unfold bind, ret, emit, try_finally.
    destruct (transfer W cfg {| scp_peer := ip |} ip listing []) as [t r].
    cbn [trace outcome fst snd app] in *. destruct H as (S1 & S2 & S3).
    repeat split.
    + cbn [forallb transfer_effect]. rewrite forallb_app, S1. reflexivity.
    + change (ScpEnter ip :: t ++ [ScpExit ip]) with ([ScpEnter ip] ++ t ++ [ScpExit ip]).
      rewrite !output_entries_app, S2. reflexivity.
    + intros x Hx. destruct r as [y|]; [|discriminate Hx].
      injection Hx as <-. now apply S3.
  - cbn. repeat split. intros x Hx. discriminate Hx.
Qed.

(** Opening the session attempts at most one connection, and nothing else
    on the network. *)
Lemma open_session_shape ip :
  let m := open_session W cfg ip in
  (trace m = [] \/ exists auth, trace m = [Connect ip (REMOTE_USER cfg) auth])
  /\ (forall c, outcome m = Return c ->
        c = {| ssh_peer := ip |} /\ w_connect W ip = None
        /\ exists auth, trace m = [Connect ip (REMOTE_USER cfg) auth]).
Proof.
  unfold open_session, create_ssh_client, connect, from_private_key_file, bind, emit, ret, raise.
  destruct (USE_SSH_KEY cfg); [destruct (truthy (SSH_KEY_PATH cfg));
                               [destruct (w_load_key W (SSH_KEY_PATH cfg))|]|];
    destruct (w_connect W ip); cbn; split; eauto;
    intros c Hc; try discriminate Hc; injection Hc as <-; eauto.
Qed.

(** The cleanup loop issues the deletion commands of the record in order,
    stopping at the first that raises. *)
Lemma cleanup_shape ip files :
  let m := cleanup W cfg {| ssh_peer := ip |} ip files in
  (exists k, commands ip (trace m) = map (cleanup_cmd cfg) (firstn k files))
  /\ closes ip (trace m) = 0%nat
  /\ output_entries ip (trace m) = []
  /\ logged true (trace m) = []
  /\ ((forall f, In f files -> exists s, w_exec W ip (cleanup_cmd cfg f) = Return s) ->
      commands ip (trace m) = map (cleanup_cmd cfg) files /\ outcome m = Return tt).
Proof.
  induction files as [|f rest IH]; cbn [cleanup].
  - cbn. repeat split; auto. exists 0%nat. reflexivity.
  - unfold exec_command, bind, emit, log, ret, raise. cbn [ssh_peer].
    destruct (w_exec W ip (cleanup_cmd cfg f)) as [s|e] eqn:He.
    + cbn zeta in IH.
      destruct (cleanup W cfg {| ssh_peer := ip |} ip rest) as [t r].
      cbn in *. rewrite str_eqb_refl.
      destruct IH as ([k Hk] & C & O & L & A).
      repeat split; auto.
      * exists (S k). cbn. now rewrite Hk.
      * unfold output_entries in *. cbn. rewrite startswith_app_same. exact O.
      * destruct (A (fun g Hg => H g (or_intror Hg))) as [A1 A2]. now rewrite A1.
      * destruct (A (fun g Hg => H g (or_intror Hg))) as [A1 A2]. exact A2.
    + cbn. rewrite str_eqb_refl. repeat split; auto.
      * exists 1%nat. reflexivity.
      * destruct (H f (or_introl eq_refl)) as [s Hs].
        assert (X : Raise e = Return s) by (rewrite <- He; exact Hs). discriminate X.
      * destruct (H f (or_introl eq_refl)) as [s Hs].
        assert (X : Raise e = Return s) by (rewrite <- He; exact Hs). discriminate X.
Qed.


End Stages.

(* ===================================================================== *)
(** ** The outcome policy *)
(* ===================================================================== *)

Section Policy.

Variable W : World.
Variable cfg : Config.


(** A script that wrote to its error stream: one error entry, the output
    if any, the session closed, and no command at all. *)
Lemma after_execution_failed ip files o e :
  truthy e = true ->
  after_execution W cfg {| ssh_peer := ip |} ip files o e
  = ([Print (ip ++ u": ⚠ Script error: " ++ e);
      LogMessage (ip ++ u": ⚠ Script error: " ++ e) true]
     ++ output_log ip o ++ [SshClose ip],
     Return tt).
Proof.
  intros He. unfold after_execution, output_log. rewrite He.
  destruct (truthy o); reflexivity.
Qed.

(** A script that kept its error stream empty: the success entry, the
    cleanup loop and, if that returns, the rest. *)
Lemma after_execution_run ip files o e :
  truthy e = false ->
  after_execution W cfg {| ssh_peer := ip |} ip files o e
  = match cleanup W cfg {| ssh_peer := ip |} ip files with
    | (t, Return _) =>
        ([Print (success_msg ip); LogMessage (success_msg ip) false] ++ t
         ++ cleaned_up ip files ++ output_log ip o ++ [SshClose ip],
         Return tt)
    | (t, Raise x) =>
        ([Print (success_msg ip); LogMessage (success_msg ip) false] ++ t, Raise x)
    end.
Proof.
  intros He. unfold after_execution, output_log, cleaned_up, success_msg.
  rewrite He.
  destruct (cleanup W cfg {| ssh_peer := ip |} ip files) as [t [[]|x]];
    destruct (truthy o);
    cbv beta iota zeta delta [bind emit print log ssh_close ret ssh_peer];
    cbn [app]; rewrite <- ?app_assoc; reflexivity.
Qed.


Lemma output_entries_success ip :
  output_entries ip [Print (success_msg ip); LogMessage (success_msg ip) false] = [].
Proof.
  unfold output_entries, success_msg. cbn [logged Bool.eqb filter].
  rewrite startswith_app_same. reflexivity.
Qed.

Lemma output_entries_error ip e :
  output_entries ip [Print (ip ++ u": ⚠ Script error: " ++ e);
                     LogMessage (ip ++ u": ⚠ Script error: " ++ e) true] = [].
Proof. reflexivity. Qed.


(** Whatever the deletion commands do: the commands issued are deletions
    of a prefix of the record, none at all after an error stream, and the
    session is closed exactly when no exception escapes. *)
Lemma after_execution_any ip files o e :
  let m := after_execution W cfg {| ssh_peer := ip |} ip files o e in
  (exists k, commands ip (trace m) = map (cleanup_cmd cfg) (firstn k files))
  /\ (truthy e = true -> commands ip (trace m) = [])
  /\ (outcome m = Return tt -> closes ip (trace m) = 1%nat)
  /\ (forall x, outcome m = Raise x ->
        closes ip (trace m) = 0%nat /\ output_entries ip (trace m) = []
        /\ truthy e = false
        /\ ~ (forall f, In f files -> exists s, w_exec W ip (cleanup_cmd cfg f) = Return s)).
Proof.
  cbv zeta. destruct (truthy e) eqn:He.
  - rewrite (after_execution_failed ip files o e He). cbn [trace outcome fst snd].
    assert (Z : commands ip ([Print (ip ++ u": ⚠ Script error: " ++ e);
                              LogMessage (ip ++ u": ⚠ Script error: " ++ e) true]
                             ++ output_log ip o ++ [SshClose ip]) = []).
    { rewrite !commands_app. unfold output_log. destruct (truthy o); reflexivity. }
    repeat split.
    + exists 0%nat. exact Z.
    + intros _. exact Z.
    + intros _. rewrite !closes_app. unfold output_log, closes.
      destruct (truthy o); cbn [filter app List.length]; rewrite str_eqb_refl; reflexivity.
    + discriminate H.
    + discriminate H.
    + discriminate H.
    + discriminate H.
  - rewrite (after_execution_run ip files o e He).
    destruct (cleanup_shape W cfg ip files) as ([k Hk] & C & O & L & A).
    destruct (cleanup W cfg {| ssh_peer := ip |} ip files) as [t [[]|x]];
      cbn [trace outcome fst snd] in *.
    + repeat split; try discriminate.
      * exists k. rewrite !commands_app, Hk.
        replace (commands ip (output_log ip o)) with (@nil str)
          by (unfold output_log; destruct (truthy o); reflexivity).
        cbn [commands cleaned_up app]. apply app_nil_r.
      * intros _. rewrite !closes_app, C.
        replace (closes ip (output_log ip o)) with 0%nat
          by (unfold output_log; destruct (truthy o); reflexivity).
        unfold closes. cbn [filter cleaned_up]. rewrite str_eqb_refl. reflexivity.
    + repeat split; try discriminate.
      * exists k. rewrite !commands_app, Hk. reflexivity.
      * rewrite !closes_app, C. reflexivity.
      * rewrite !output_entries_app, O, output_entries_success. reflexivity.
      * intros Hall. destruct (A Hall) as [_ A2]. discriminate A2.
Qed.

End Policy.

(* ===================================================================== *)
(** ** The ways through the workflow *)
(* ===================================================================== *)

Section Ways.

Variable W : World.
Variable cfg : Config.

Lemma workflow_body_unfold ip :
  workflow_body W cfg ip
  = bind (print (connecting_msg ip)) (fun _ =>
    bind (open_session W cfg ip) (fun ssh_client =>
      if negb (w_isdir W (LOCAL_DIR cfg)) then
        bind (print (missing_msg cfg ip)) (fun _ =>
        bind (log (missing_msg cfg ip) true) (fun _ => ssh_close ssh_client))
      else
        bind (with_SCPClient W ssh_client (fun scp =>
                bind (listdir W (LOCAL_DIR cfg)) (fun listing =>
                  transfer W cfg scp ip listing []))) (fun transferred_files =>
        bind (exec_command W ssh_client (chmod_cmd cfg)) (fun _ =>
        bind (exec_command W ssh_client (run_cmd cfg)) (fun streams =>
        bind (read_decode_strip W (fst streams)) (fun output =>
        bind (read_decode_strip W (snd streams)) (fun error =>
          after_execution W cfg ssh_client ip transferred_files output error))))))).
Proof. reflexivity. Qed.

Lemma in_commands h c t : In (ExecCommand h c) t -> In c (commands h t).
Proof.
  induction t as [|a t IH]; [contradiction|].
  intros [->|Hin]; cbn.
  - rewrite str_eqb_refl. now left.
  - destruct a; auto. destruct (str_eqb host h); [right|]; auto.
Qed.

(** The four ways a workflow can go. *)
Lemma workflow_body_cases ip :
  let m := workflow_body W cfg ip in
  (* the session does not open *)
  (exists x, outcome (open_session W cfg ip) = Raise x
             /\ m = (Print (connecting_msg ip) :: trace (open_session W cfg ip), Raise x))
  \/
  (* the source directory is missing *)
  (w_connect W ip = None /\ w_isdir W (LOCAL_DIR cfg) = false
   /\ exists auth,
       m = ([Print (connecting_msg ip); Connect ip (REMOTE_USER cfg) auth;
             Print (missing_msg cfg ip); LogMessage (missing_msg cfg ip) true; SshClose ip],
            Return tt))
  \/
  (* an exception before the outcome policy *)
  (w_connect W ip = None /\ w_isdir W (LOCAL_DIR cfg) = true
   /\ (forall o e, ~ (In (ExecCommand ip (run_cmd cfg)) (trace m) /\ streams_read W cfg ip o e))
   /\ (exists x, outcome m = Raise x)
   /\ deletions ip (trace m) = []
   /\ output_entries ip (trace m) = [] /\ closes ip (trace m) = 0%nat)
  \/
  (* the outcome policy runs *)
  (w_connect W ip = None /\ w_isdir W (LOCAL_DIR cfg) = true
   /\ exists o e pre,
       streams_read W cfg ip o e
       /\ m = (pre ++ trace (after_execution W cfg {| ssh_peer := ip |} ip
                               (transfer_record W cfg ip) (strip o) (strip e)),
               outcome (after_execution W cfg {| ssh_peer := ip |} ip
                          (transfer_record W cfg ip) (strip o) (strip e)))
       /\ In (ExecCommand ip (run_cmd cfg)) pre
       /\ deletions ip pre = []
       /\ output_entries ip pre = [] /\ closes ip pre = 0%nat
       /\ logged true pre = []).
Proof.
  cbv zeta. remember (workflow_body W cfg ip) as m eqn:Em.
  rewrite workflow_body_unfold in Em.
  destruct (open_session_shape W cfg ip) as [Ht Hc].
  destruct (open_session W cfg ip) as [tc [c|x]]; cbn [trace outcome fst snd] in *.
  2:{ left. exists x. split; [reflexivity | exact Em]. }
  destruct (Hc c eq_refl) as (-> & Hconn & auth & ->). clear Ht Hc.
  right.
  destruct (w_isdir W (LOCAL_DIR cfg)) eqn:Hdir; cbn [negb] in Em.
  2:{ left. repeat split; auto. exists auth. exact Em. }
  right.
  cbv beta iota zeta delta [bind print emit log ssh_close ret] in Em.
  cbn [app fst snd] in Em.
  change (with_SCPClient W {| ssh_peer := ip |}
            (fun scp => let (t, r) := listdir W (LOCAL_DIR cfg) in
                        match r with
                        | Return a => let (t', r0) := transfer W cfg scp ip a [] in (t ++ t', r0)
                        | Raise e => (t, Raise e)
                        end)) with (transfer_stage W cfg ip) in Em.
  destruct (transfer_stage_shape W cfg ip) as (S1 & S2 & S3).
  destruct (transfer_effect_readers _ S1) as (S4 & S5 & S6).
  destruct (transfer_stage W cfg ip) as [tt r]; cbn [trace outcome fst snd] in *.
  set (pre0 := Print (connecting_msg ip) :: Connect ip (REMOTE_USER cfg) auth :: tt).
  assert (P1 : commands ip pre0 = []) by (cbn; apply S4).
  assert (P2 : output_entries ip pre0 = []) by exact S2.
  assert (P3 : closes ip pre0 = 0%nat) by (unfold closes; cbn [filter]; apply S5).
  assert (P4 : logged true pre0 = []) by exact S6.
  assert (P5 : ~ In (ExecCommand ip (run_cmd cfg)) pre0).
  { intros Hin. apply in_commands in Hin. rewrite P1 in Hin. contradiction. }
  assert (P6 : deletions ip pre0 = []) by (unfold deletions; now rewrite P1).
  destruct r as [files|x].
  2:{ subst m. left. cbn [trace outcome fst snd]. fold pre0. repeat split; auto.
      - intros o e [Hin _]. contradiction.
      - eauto. }
  rewrite (S3 files eq_refl) in Em. clear S3 files.
  unfold exec_command at 1 in Em.
  cbv beta iota zeta delta [bind emit ret raise] in Em. cbn [ssh_peer app] in Em.
  destruct (w_exec W ip (chmod_cmd cfg)) as [s|x] eqn:Hchmod.
  2:{ subst m. left. cbn [trace outcome fst snd].
      change (Print (connecting_msg ip) :: Connect ip (REMOTE_USER cfg) auth
              :: tt ++ [ExecCommand ip (chmod_cmd cfg)])
        with (pre0 ++ [ExecCommand ip (chmod_cmd cfg)]).
      repeat split; auto.
      - intros o e [Hin _]. apply in_app_or in Hin. destruct Hin as [Hin|[Hin|[]]].
        + contradiction.
        + apply (chmod_cmd_not_run cfg). congruence.
      - eauto.
      - rewrite deletions_app, P6. unfold deletions. cbn [commands].
        rewrite str_eqb_refl. cbn [filter]. now rewrite is_deletion_chmod_cmd.
      - now rewrite output_entries_app, P2.
      - rewrite closes_app, P3. reflexivity. }
  unfold exec_command in Em.
  cbv beta iota zeta delta [bind emit ret raise] in Em. cbn [ssh_peer app] in Em.
  set (pre1 := pre0 ++ [ExecCommand ip (chmod_cmd cfg); ExecCommand ip (run_cmd cfg)]).
  assert (Q1 : deletions ip pre1 = []).
  { unfold pre1. rewrite deletions_app, P6. unfold deletions. cbn [commands].
    rewrite str_eqb_refl. cbn [filter].
    now rewrite is_deletion_chmod_cmd, is_deletion_run_cmd. }
  assert (Q2 : output_entries ip pre1 = []) by (unfold pre1; now rewrite output_entries_app, P2).
  assert (Q3 : closes ip pre1 = 0%nat) by (unfold pre1; rewrite closes_app, P3; reflexivity).
  assert (Q4 : logged true pre1 = []) by (unfold pre1; rewrite logged_app, P4; reflexivity).
  assert (Q5 : In (ExecCommand ip (run_cmd cfg)) pre1)
    by (unfold pre1; apply in_or_app; right; right; now left).
  destruct (w_exec W ip (run_cmd cfg)) as [[out err]|x] eqn:Hrun.
  2:{ subst m. left. cbn [trace outcome fst snd].
      change (Print (connecting_msg ip) :: Connect ip (REMOTE_USER cfg) auth
              :: tt ++ ExecCommand ip (chmod_cmd cfg) :: [ExecCommand ip (run_cmd cfg)])
        with (Print (connecting_msg ip) :: Connect ip (REMOTE_USER cfg) auth
              :: tt ++ [ExecCommand ip (chmod_cmd cfg); ExecCommand ip (run_cmd cfg)]).
      fold pre0. fold pre1.
      repeat split; auto.
      - intros o e [_ (out & err & Hx & _)]. congruence.
      - eauto. }
  unfold read_decode_strip in Em. cbn [fst snd] in Em.
  cbv beta iota zeta delta [bind emit ret raise] in Em. cbn [app] in Em.
  assert (Epre : Print (connecting_msg ip) :: Connect ip (REMOTE_USER cfg) auth
                 :: tt ++ ExecCommand ip (chmod_cmd cfg) :: [ExecCommand ip (run_cmd cfg)]
                 = pre1) by reflexivity.
  destruct (decode out) as [o|] eqn:Ho.
  2:{ subst m. left. cbn [trace outcome fst snd app]. rewrite Epre.
      repeat split; auto.
      - intros o e [_ (out' & err' & Hx & Hy & _)].
        rewrite Hrun in Hx. injection Hx as <- <-. congruence.
      - eauto. }
  destruct (decode err) as [e|] eqn:He.
  2:{ subst m. left. cbn [trace outcome fst snd app]. rewrite Epre.
      repeat split; auto.
      - intros o' e [_ (out' & err' & Hx & _ & Hy)].
        rewrite Hrun in Hx. injection Hx as <- <-. congruence.
      - eauto. }
  right. repeat split; auto.
  exists o, e, pre1. split; [exists out, err; auto|].
  split.
  - subst m. cbn [app].
    destruct (after_execution W cfg {| ssh_peer := ip |} ip
                (transfer_record W cfg ip) (strip o) (strip e)) as [ta ra].
    cbn [trace outcome fst snd app]. rewrite <- Epre. cbn [app].
    rewrite <- app_assoc. reflexivity.
  - auto.
Qed.

End Ways.

(* ===================================================================== *)
(** ** The workflow boundary *)
(* ===================================================================== *)

Section Boundary.

Variable W : World.
Variable cfg : Config.

(** The [except] clause: one line on the console, one error entry. *)
Lemma send_files_and_execute_run ip :
  send_files_and_execute W cfg ip
  = match workflow_body W cfg ip with
    | (t, Return _) => (t, Return tt)
    | (t, Raise x) =>
        (t ++ [Print (exception_msg ip x); LogMessage (exception_msg ip x) true],
         Return tt)
    end.
Proof.
  unfold send_files_and_execute, try_except.
  destruct (workflow_body W cfg ip) as [t [[]|x]]; reflexivity.
Qed.



Lemma open_session_no_commands ip :
  commands ip (trace (open_session W cfg ip)) = []
  /\ closes ip (trace (open_session W cfg ip)) = 0%nat
  /\ output_entries ip (trace (open_session W cfg ip)) = []
  /\ logged true (trace (open_session W cfg ip)) = []
  /\ (forall h, puts h (trace (open_session W cfg ip)) = [])
  /\ (forall h, commands h (trace (open_session W cfg ip)) = []).
Proof.
  destruct (open_session_shape W cfg ip) as [[->|[auth ->]] _]; repeat split.
Qed.


End Boundary.

(* ===================================================================== *)
(** ** Cleanup *)
(* ===================================================================== *)

Section Cleanup.

Variable W : World.
Variable cfg : Config.








End Cleanup.




Section RaisingCleanup.

Variable W : World.
Variable cfg : Config.



End RaisingCleanup.




(** In the same run the error stream is empty and [c.txt] is in the record,
    yet no deletion command names it: the cleanup loop stops at the first
    command that raises. *)
Lemma cleanup_stops_at_first_failure :
  streams_read late_failure_world source_config pi (u"done") []
  /\ In (u"c.txt") (transfer_record late_failure_world source_config pi)
  /\ ~ In (cleanup_cmd source_config (u"c.txt"))
         (deletions pi (trace (send_files_and_execute late_failure_world source_config pi))).
Proof.
  split; [exists (bytes_of_string "done"), []; vm_compute; repeat split|].
  split; [vm_compute; tauto|].
  vm_compute. intros [H|[H|[]]]; discriminate H.
Qed.

(* ===================================================================== *)
(** ** Reporting the output *)
(* ===================================================================== *)




(** It fails on white space as well: the target wrote a line break to its
    output, the workflow went through, and the detailed log has no output
    entry. *)
Lemma blank_output_not_logged :
  reaches_execution blank_stdout_world source_config pi
  /\ w_exec blank_stdout_world pi (run_cmd source_config) = Return ([x0a], [])
  /\ outcome (workflow_body blank_stdout_world source_config pi) = Return tt
  /\ output_entries pi (trace (send_files_and_execute blank_stdout_world source_config pi))
     = [].
Proof.
  split; [vm_compute; tauto|]. repeat split; vm_compute; reflexivity.
Qed.

(* ===================================================================== *)
(** ** The session *)
(* ===================================================================== *)

(** An opened session is closed by the workflow exactly when no exception
    reaches the [except] clause: that clause does not close it. *)
Lemma session_closed_iff_no_exception (W : World) (cfg : Config) (ip : str)
  (c : SSHClient) :
  outcome (open_session W cfg ip) = Return c ->
  closes ip (trace (send_files_and_execute W cfg ip))
  = match outcome (workflow_body W cfg ip) with
    | Return _ => 1%nat
    | Raise _ => 0%nat
    end.
Proof.
  intros Hc. rewrite send_files_and_execute_run.
  destruct (workflow_body_cases W cfg ip) as [H|[H|[H|H]]]; cbv zeta in H.
  - destruct H as (x & Hx & _). rewrite Hx in Hc. discriminate Hc.
  - destruct H as (_ & _ & auth & ->). cbn [trace outcome fst snd].
    unfold closes. cbn [filter]. rewrite str_eqb_refl. reflexivity.
  - destruct H as (_ & _ & _ & (x & Hx) & _ & _ & S).
    destruct (workflow_body W cfg ip) as [t r]. cbn [trace outcome fst snd] in *.
    subst r. cbn [trace fst]. rewrite closes_app, S. reflexivity.
  - destruct H as (_ & _ & o & e & pre & _ & -> & _ & _ & _ & S & _).
    destruct (after_execution_any W cfg ip (transfer_record W cfg ip) (strip o) (strip e))
      as (_ & _ & Hret & Hraise). cbv zeta in *.
    destruct (after_execution W cfg {| ssh_peer := ip |} ip
                (transfer_record W cfg ip) (strip o) (strip e)) as [ta [[]|x]];
      cbn [trace outcome fst snd] in *.
    + rewrite closes_app, S. apply Hret. reflexivity.
    + destruct (Hraise x eq_refl) as (Hz & _).
      rewrite !closes_app, S, Hz. reflexivity.
Qed.

(** C3 at a failing input.  The session to the Pi opens, the second
    [scp.put] raises, the exception is logged and the workflow returns,
    and no call closed the session. *)
Theorem session_left_open_after_failed_transfer :
  outcome (open_session failing_put_world source_config pi) = Return {| ssh_peer := pi |}
  /\ outcome (workflow_body failing_put_world source_config pi)
     = Raise (Exception (u"scp: connection lost"))
  /\ outcome (send_files_and_execute failing_put_world source_config pi) = Return tt
  /\ closes pi (trace (send_files_and_execute failing_put_world source_config pi)) = 0%nat.
Proof.
  split; [reflexivity|]. split; [vm_compute; reflexivity|]. split; [vm_compute; reflexivity|].
  rewrite (session_closed_iff_no_exception failing_put_world source_config pi
             {| ssh_peer := pi |} eq_refl).
  vm_compute. reflexivity.
Qed.

(** On the paths the claim lists besides the exception path the session is
    closed: the clean run, the missing directory, the error stream. *)
Example session_closed_on_the_other_paths :
  closes pi (trace (send_files_and_execute sample_world source_config pi)) = 1%nat
  /\ closes pi (trace (send_files_and_execute missing_dir_world source_config pi)) = 1%nat
  /\ closes pi (trace (send_files_and_execute denied_world source_config pi)) = 1%nat.
Proof. repeat split. Qed.

(* ===================================================================== *)
(** ** The missing source directory *)
(* ===================================================================== *)




(* ===================================================================== *)
(** ** Workflows side by side *)
(* ===================================================================== *)

Section HostLocal.

Variable W : World.
Variable cfg : Config.

Lemma local_to_nil ip : local_to ip [].
Proof. intros e h []. Qed.

Lemma local_to_app ip t1 t2 :
  local_to ip t1 -> local_to ip t2 -> local_to ip (t1 ++ t2).
Proof.
  intros H1 H2 e h Hin. apply in_app_or in Hin. destruct Hin; eauto.
Qed.

Lemma local_to_one ip e :
  (forall h, host_of e = Some h -> h = ip) -> local_to ip [e].
Proof. intros H e' h [<-|[]]. apply H. Qed.

Lemma local_to_bind {A B} ip (m : M A) (f : A -> M B) :
  local_to ip (trace m) ->
  (forall a, outcome m = Return a -> local_to ip (trace (f a))) ->
  local_to ip (trace (bind m f)).
Proof.
  destruct m as [t [a|x]]; cbn [trace outcome fst snd bind]; intros Hm Hf.
  - specialize (Hf a eq_refl). destruct (f a) as [t' r].
    cbn [trace fst] in *. now apply local_to_app.
  - exact Hm.
Qed.

Lemma local_to_try_finally {A} ip (m : M A) (fin : M unit) :
  local_to ip (trace m) -> local_to ip (trace fin) ->
  local_to ip (trace (try_finally m fin)).
Proof.
  destruct m as [t r], fin as [t' r']. cbn [trace fst try_finally].
  apply local_to_app.
Qed.

Lemma local_to_try_except {A} ip (m : M A) (handler : exception -> M A) :
  local_to ip (trace m) -> (forall x, local_to ip (trace (handler x))) ->
  local_to ip (trace (try_except m handler)).
Proof.
  destruct m as [t [a|x]]; cbn [trace fst try_except]; intros Hm Hh; [exact Hm|].
  specialize (Hh x). destruct (handler x) as [t' r].
  cbn [trace fst] in *. now apply local_to_app.
Qed.

Lemma local_to_silent ip e : host_of e = None -> local_to ip (trace (emit e)).
Proof. intros H. apply local_to_one. intros h Hh. congruence. Qed.

Lemma local_to_exec ip command :
  local_to ip (trace (exec_command W {| ssh_peer := ip |} command)).
Proof.
  unfold exec_command. apply local_to_bind.
  - apply local_to_one. cbn. intros h [= <-]. reflexivity.
  - intros _ _. destruct (w_exec W _ command); apply local_to_nil.
Qed.

Lemma local_to_transfer ip listing acc :
  local_to ip (trace (transfer W cfg {| scp_peer := ip |} ip listing acc)).
Proof.
  revert acc. induction listing as [|f rest IH]; intros acc; cbn [transfer].
  - apply local_to_nil.
  - destruct (w_isfile W (os_path_join (LOCAL_DIR cfg) f)); [|apply IH].
    apply local_to_bind.
    + unfold scp_put. apply local_to_bind.
      * apply local_to_one. cbn. intros h [= <-]. reflexivity.
      * intros _ _. destruct (w_put W _ _); apply local_to_nil.
    + intros _ _. apply local_to_bind; [now apply local_to_silent|].
      intros _ _. apply IH.
Qed.

Lemma local_to_cleanup ip files :
  local_to ip (trace (cleanup W cfg {| ssh_peer := ip |} ip files)).
Proof.
  induction files as [|f rest IH]; cbn [cleanup]; [apply local_to_nil|].
  apply local_to_bind; [apply local_to_exec|]. intros _ _.
  apply local_to_bind; [now apply local_to_silent|]. intros _ _. exact IH.
Qed.

Lemma local_to_after_execution ip files o e :
  local_to ip (trace (after_execution W cfg {| ssh_peer := ip |} ip files o e)).
Proof.
  unfold after_execution.
  apply local_to_bind.
  - destruct (truthy e).
    + apply local_to_bind; [now apply local_to_silent|].
      intros _ _. now apply local_to_silent.
    + apply local_to_bind; [now apply local_to_silent|]. intros _ _.
      apply local_to_bind; [now apply local_to_silent|]. intros _ _.
      apply local_to_bind; [apply local_to_cleanup|]. intros _ _.
      now apply local_to_silent.
  - intros _ _. apply local_to_bind.
    + destruct (truthy o); [now apply local_to_silent | apply local_to_nil].
    + intros _ _. apply local_to_one. cbn. intros h [= <-]. reflexivity.
Qed.

(** The workflow of a host talks to that host only. *)
Lemma workflow_is_host_local ip :
  local_to ip (trace (send_files_and_execute W cfg ip)).
Proof.
  unfold send_files_and_execute. apply local_to_try_except.
  2:{ intros x. apply local_to_bind; [now apply local_to_silent|].
      intros _ _. now apply local_to_silent. }
  rewrite workflow_body_unfold.
  apply local_to_bind; [now apply local_to_silent|]. intros _ _.
  apply local_to_bind.
  { destruct (open_session_shape W cfg ip) as [[->|[auth ->]] _].
    - apply local_to_nil.
    - apply local_to_one. cbn. intros h [= <-]. reflexivity. }
  intros c Hc.
  destruct (open_session_shape W cfg ip) as [_ H]. destruct (H c Hc) as (-> & _).
  destruct (w_isdir W (LOCAL_DIR cfg)); cbn [negb].
  - apply local_to_bind.
    { unfold with_SCPClient. cbn [ssh_peer scp_peer].
      apply local_to_bind.
      - apply local_to_one. cbn. intros h [= <-]. reflexivity.
      - intros _ _. destruct (w_scp_open W ip); [apply local_to_nil|].
        apply local_to_try_finally.
        + apply local_to_bind.
          * unfold listdir. destruct (w_listdir W (LOCAL_DIR cfg)); apply local_to_nil.
          * intros listing _. apply local_to_transfer.
        + apply local_to_one. cbn. intros h [= <-]. reflexivity. }
    intros files _.
    apply local_to_bind; [apply local_to_exec|]. intros _ _.
    apply local_to_bind; [apply local_to_exec|]. intros streams _.
    apply local_to_bind.
    { unfold read_decode_strip. destruct (decode (fst streams)); apply local_to_nil. }
    intros o _. apply local_to_bind.
    { unfold read_decode_strip. destruct (decode (snd streams)); apply local_to_nil. }
    intros e _. apply local_to_after_execution.
  - apply local_to_bind; [now apply local_to_silent|]. intros _ _.
    apply local_to_bind; [now apply local_to_silent|]. intros _ _.
    apply local_to_one. cbn. intros h [= <-]. reflexivity.
Qed.

Lemma on_host_elsewhere ip other t :
  local_to ip t -> other <> ip -> on_host other t = [].
Proof.
  intros Hl Hne. unfold on_host.
  induction t as [|e t IH]; cbn [filter]; [reflexivity|].
  assert (Ht : local_to ip t) by (intros e' h Hin; apply Hl; now right).
  rewrite (IH Ht).
  destruct (host_of e) as [h|] eqn:He; [|reflexivity].
  assert (h = ip) by (apply (Hl e h); [now left | exact He]). subst h.
  destruct (str_eqb ip other) eqn:E; [|reflexivity].
  apply str_eqb_eq in E. congruence.
Qed.

End HostLocal.

Section Pool.

Lemma interleaved_nil_l b c : interleaved [] b c -> c = b.
Proof.
  intros H. remember [] as a eqn:Ea. induction H; try discriminate; auto.
  f_equal. auto.
Qed.

Lemma interleaved_nil_r a c : interleaved a [] c -> c = a.
Proof.
  intros H. remember [] as b eqn:Eb. induction H; try discriminate; auto.
  f_equal. auto.
Qed.

Lemma interleaved_filter P a b c :
  interleaved a b c -> interleaved (filter P a) (filter P b) (filter P c).
Proof.
  induction 1; cbn [filter]; [constructor| |]; destruct (P e); auto;
    now constructor.
Qed.

Lemma interleaved_logged error a b c :
  interleaved a b c ->
  Permutation (logged error c) (logged error a ++ logged error b).
Proof.
  induction 1 as [|e a b c H IH|e a b c H IH]; cbn [logged]; [constructor| |].
  - destruct e; auto. destruct (Bool.eqb error0 error); auto.
    cbn [app]. now constructor.
  - destruct e; auto. destruct (Bool.eqb error0 error); auto.
    rewrite IH. apply Permutation_middle.
Qed.

Lemma pooled_on_host_absent (T : str -> list Effect) ips w other :
  (forall ip, local_to ip (T ip)) ->
  pooled (map T ips) w -> ~ In other ips -> on_host other w = [].
Proof.
  intros HT. revert w. induction ips as [|i rest IH]; intros w Hp Hn.
  - inversion Hp. reflexivity.
  - cbn [map] in Hp. inversion Hp as [|t ts w' v Hp' Hi]; subst.
    apply (interleaved_filter (fun e => match host_of e with
                                        | Some h => str_eqb h other
                                        | None => false
                                        end)) in Hi.
    fold (on_host other (T i)) in Hi. fold (on_host other w') in Hi.
    fold (on_host other w) in Hi.
    rewrite (on_host_elsewhere i other (T i)) in Hi.
    + rewrite (IH w') in Hi; [| exact Hp' | intros H; apply Hn; now right].
      inversion Hi. reflexivity.
    + apply HT.
    + intros ->. apply Hn. now left.
Qed.

(** In whatever order the pool takes the steps of the workflows, every
    host sees the network actions of its own workflow, in order. *)
Lemma pooled_on_host (T : str -> list Effect) ips w ip :
  (forall ip, local_to ip (T ip)) -> NoDup ips ->
  pooled (map T ips) w -> In ip ips -> on_host ip w = on_host ip (T ip).
Proof.
  intros HT. revert w. induction ips as [|i rest IH]; intros w Hnd Hp Hin.
  - contradiction.
  - cbn [map] in Hp. inversion Hp as [|t ts w' v Hp' Hi]; subst.
    inversion Hnd as [|i' rest' Hni Hnd']; subst.
    apply (interleaved_filter (fun e => match host_of e with
                                        | Some h => str_eqb h ip
                                        | None => false
                                        end)) in Hi.
    fold (on_host ip (T i)) in Hi. fold (on_host ip w') in Hi.
    fold (on_host ip w) in Hi.
    destruct Hin as [->|Hin].
    + rewrite (pooled_on_host_absent T rest w' ip HT Hp' Hni) in Hi.
      now apply interleaved_nil_r in Hi.
    + rewrite (on_host_elsewhere i ip (T i)) in Hi.
      * apply interleaved_nil_l in Hi. rewrite Hi. now apply IH.
      * apply HT.
      * intros ->. contradiction.
Qed.

Lemma pooled_logged error ts w :
  pooled ts w -> Permutation (logged error w) (flat_map (logged error) ts).
Proof.
  induction 1 as [|t ts w v Hp IH Hi]; cbn [flat_map]; [constructor|].
  rewrite (interleaved_logged error _ _ _ Hi). now apply Permutation_app_head.
Qed.

End Pool.

(* ===================================================================== *)
(** ** The hosts of the pass, and the disk *)
(* ===================================================================== *)

Section Deployment.

Variable W : World.
Variable cfg : Config.

Lemma send_files_and_execute_returns ip :
  outcome (send_files_and_execute W cfg ip) = Return tt.
Proof.
  rewrite send_files_and_execute_run.
  destruct (workflow_body W cfg ip) as [t [[]|x]]; reflexivity.
Qed.

(** Carrying the recorded calls out on a disk that takes them adds to each
    log the lines of its messages, stamped in turn. *)
Lemma perform_all_run t st :
  perform_all W cfg t st
  = (Return tt,
     {| log_dir_exists :=
          if existsb (fun e => match e with
                               | LogMessage _ _ | EnsureLogDir => true
                               | _ => false
                               end) t
          then true else log_dir_exists st;
        detailed_log := detailed_log st ++ rendered W false t (clock_reads st);
        error_log := error_log st ++ rendered W true t (clock_reads st);
        clock_reads := (clock_reads st + List.length (logged false t)
                        + List.length (logged true t))%nat |}).
Proof.
  revert st. induction t as [|e t IH]; intros st.
  - cbn. rewrite !app_nil_r, !Nat.add_0_r. now destruct st.
  - cbn [perform_all]. unfold io_bind.
    destruct e; cbn [perform];
      try (unfold io_ret; rewrite IH; cbn [existsb orb rendered logged]; reflexivity).
    + rewrite log_message_run. rewrite IH.
      cbn [existsb orb rendered logged log_dir_exists detailed_log error_log clock_reads].
      destruct (existsb _ t); destruct error; cbn [Bool.eqb List.length app];
        rewrite <- ?app_assoc, ?app_nil_r; cbn [app]; apply f_equal; apply f_equal; lia.
    + cbn. rewrite IH. cbn. destruct (existsb _ t); reflexivity.
Qed.

End Deployment.

(** One worker after the other is one of the orders of a pool. *)
Lemma interleaved_app a b : interleaved a b (a ++ b).
Proof.
  induction a as [|e a IH]; cbn [app].
  - induction b as [|e b IH]; now constructor.
  - now constructor.
Qed.


(* ===================================================================== *)
(** ** The workflow, stage by stage *)
(* ===================================================================== *)

Section Anatomy.

Variable W : World.
Variable cfg : Config.

Lemma bind_run {A B} (m : M A) (f : A -> M B) :
  bind m f
  = (trace m ++ match outcome m with
                | Return a => trace (f a)
                | Raise _ => []
                end,
     match outcome m with
     | Return a => outcome (f a)
     | Raise x => Raise x
     end).
Proof.
  destruct m as [t [a|x]]; cbn [bind trace outcome fst snd].
  - destruct (f a) as [t' r]. reflexivity.
  - now rewrite app_nil_r.
Qed.

Lemma exec_command_run ip command :
  exec_command W {| ssh_peer := ip |} command
  = ([ExecCommand ip command],
     match w_exec W ip command with
     | Return streams => Return streams
     | Raise x => Raise x
     end).
Proof.
  unfold exec_command. cbn [ssh_peer]. rewrite bind_run. cbn [trace outcome fst snd emit].
  destruct (w_exec W ip command); reflexivity.
Qed.

Lemma read_decode_strip_run data :
  read_decode_strip W data
  = ([], match decode data with
         | Some s => Return (strip s)
         | None => Raise (Exception (w_decode_error W data))
         end).
Proof. unfold read_decode_strip. destruct (decode data); reflexivity. Qed.

(** The whole of the [try] body, by how far it gets. *)
Lemma workflow_body_run ip :
  workflow_body W cfg ip
  = let t0 := Print (connecting_msg ip) :: trace (open_session W cfg ip) in
    match outcome (open_session W cfg ip) with
    | Raise x => (t0, Raise x)
    | Return _ =>
      if negb (w_isdir W (LOCAL_DIR cfg)) then
        (t0 ++ [Print (missing_msg cfg ip); LogMessage (missing_msg cfg ip) true;
                SshClose ip], Return tt)
      else
        let t1 := t0 ++ trace (transfer_stage W cfg ip) in
        match outcome (transfer_stage W cfg ip) with
        | Raise x => (t1, Raise x)
        | Return _ =>
          match w_exec W ip (chmod_cmd cfg) with
          | Raise x => (t1 ++ [ExecCommand ip (chmod_cmd cfg)], Raise x)
          | Return _ =>
            match w_exec W ip (run_cmd cfg) with
            | Raise x => (t1 ++ first_commands cfg ip, Raise x)
            | Return (out, err) =>
              match decode out with
              | None => (t1 ++ first_commands cfg ip, Raise (Exception (w_decode_error W out)))
              | Some o =>
                match decode err with
                | None =>
                    (t1 ++ first_commands cfg ip, Raise (Exception (w_decode_error W err)))
                | Some e =>
                    let p := after_execution W cfg {| ssh_peer := ip |} ip
                               (transfer_record W cfg ip) (strip o) (strip e) in
                    (t1 ++ first_commands cfg ip ++ trace p, outcome p)
                end
              end
            end
          end
        end
    end.
Proof.
  cbv zeta. rewrite workflow_body_unfold.
  destruct (open_session_shape W cfg ip) as [_ Hc].
  destruct (open_session W cfg ip) as [tc [c|x]]; cbn [trace outcome fst snd] in *.
  2:{ reflexivity. }
  destruct (Hc c eq_refl) as (-> & _ & _). clear Hc.
  destruct (w_isdir W (LOCAL_DIR cfg)); cbn [negb].
  2:{ cbv beta iota zeta delta [bind print emit log ssh_close ret ssh_peer].
      cbn [app]. rewrite <- ?app_assoc. reflexivity. }
  rewrite bind_run. cbn [trace outcome fst snd print emit].
  rewrite bind_run. cbn [trace outcome fst snd app].
  rewrite bind_run. fold (transfer_stage W cfg ip).
  destruct (transfer_stage_shape W cfg ip) as (_ & _ & S3).
  destruct (transfer_stage W cfg ip) as [ts [files|x]]; cbn [trace outcome fst snd] in *.
  2:{ rewrite ?app_nil_r. reflexivity. }
  rewrite (S3 files eq_refl). clear S3 files.
  rewrite bind_run, exec_command_run. cbn [trace outcome fst snd].
  destruct (w_exec W ip (chmod_cmd cfg)) as [s|x].
  2:{ rewrite ?app_nil_r, <- ?app_assoc. reflexivity. }
  rewrite bind_run, exec_command_run. cbn [trace outcome fst snd].
  destruct (w_exec W ip (run_cmd cfg)) as [[out err]|x].
  2:{ unfold first_commands. rewrite ?app_nil_r, <- ?app_assoc. reflexivity. }
  rewrite bind_run, read_decode_strip_run. cbn [trace outcome fst snd app].
  destruct (decode out) as [o|].
  2:{ unfold first_commands. rewrite ?app_nil_r, <- ?app_assoc. reflexivity. }
  rewrite bind_run, read_decode_strip_run. cbn [trace outcome fst snd app].
  destruct (decode err) as [e|].
  2:{ unfold first_commands. rewrite ?app_nil_r, <- ?app_assoc. reflexivity. }
  unfold first_commands. rewrite <- ?app_assoc. reflexivity.
Qed.

End Anatomy.

(* ===================================================================== *)
(** ** What each stage can do *)
(* ===================================================================== *)

Section Shapes.

Variable W : World.
Variable cfg : Config.

Lemma only_nil P : only P [].
Proof. intros e []. Qed.

Lemma only_app P t1 t2 : only P t1 -> only P t2 -> only P (t1 ++ t2).
Proof. intros H1 H2 e Hin. apply in_app_or in Hin. destruct Hin; auto. Qed.

Lemma only_cons P e t : P e -> only P t -> only P (e :: t).
Proof. intros He Ht e' [<-|Hin]; auto. Qed.

Lemma only_filter_nil (P : Effect -> Prop) (f : Effect -> bool) t :
  only P t -> (forall e, P e -> f e = false) -> filter f t = [].
Proof.
  intros Ht Hf. induction t as [|e t IH]; cbn [filter]; [reflexivity|].
  rewrite (Hf e (Ht e (or_introl eq_refl))). apply IH.
  intros e' Hin. apply Ht. now right.
Qed.

Lemma only_bind {A B} P (m : M A) (f : A -> M B) :
  only P (trace m) ->
  (forall a, outcome m = Return a -> only P (trace (f a))) ->
  only P (trace (bind m f)).
Proof.
  intros Hm Hf. rewrite bind_run. cbn [trace fst]. apply only_app; [exact Hm|].
  destruct (outcome m) as [a|x]; [now apply Hf | apply only_nil].
Qed.

Lemma transfer_only_puts ip listing acc :
  only (put_or_log ip) (trace (transfer W cfg {| scp_peer := ip |} ip listing acc)).
Proof.
  revert acc. induction listing as [|f rest IH]; intros acc; cbn [transfer].
  - apply only_nil.
  - destruct (w_isfile W (os_path_join (LOCAL_DIR cfg) f)); [|apply IH].
    apply only_bind.
    + unfold scp_put. cbn [scp_peer]. apply only_bind.
      * apply only_cons; [left; eauto | apply only_nil].
      * intros _ _. destruct (w_put W ip _); apply only_nil.
    + intros _ _. apply only_bind.
      * apply only_cons; [right; eauto | apply only_nil].
      * intros _ _. apply IH.
Qed.




Lemma cleanup_only_commands ip files :
  only (command_or_report ip) (trace (cleanup W cfg {| ssh_peer := ip |} ip files)).
Proof.
  induction files as [|f rest IH]; cbn [cleanup]; [apply only_nil|].
  apply only_bind.
  - rewrite exec_command_run. apply only_cons; [left; eauto | apply only_nil].
  - intros _ _. apply only_bind.
    + apply only_cons; [right; left; eauto | apply only_nil].
    + intros _ _. exact IH.
Qed.

Lemma after_execution_only_commands ip files o e :
  only (command_or_report ip)
       (trace (after_execution W cfg {| ssh_peer := ip |} ip files o e)).
Proof.
  unfold after_execution. apply only_bind.
  - destruct (truthy e).
    + apply only_bind; [apply only_cons; [right; right; left; eauto | apply only_nil]|].
      intros _ _. apply only_cons; [right; left; eauto | apply only_nil].
    + apply only_bind; [apply only_cons; [right; right; left; eauto | apply only_nil]|].
      intros _ _.
      apply only_bind; [apply only_cons; [right; left; eauto | apply only_nil]|].
      intros _ _. apply only_bind; [apply cleanup_only_commands|].
      intros _ _. apply only_cons; [right; right; left; eauto | apply only_nil].
  - intros _ _. apply only_bind.
    + destruct (truthy o); [|apply only_nil].
      apply only_cons; [right; left; eauto | apply only_nil].
    + intros _ _. apply only_cons; [right; right; right; reflexivity | apply only_nil].
Qed.

(** The error log of the outcome policy: the script error, or nothing. *)
Lemma after_execution_errors ip files o e :
  logged true (trace (after_execution W cfg {| ssh_peer := ip |} ip files o e))
  = if truthy e then [script_error_msg ip e] else [].
Proof.
  destruct (truthy e) eqn:He.
  - rewrite (after_execution_failed W cfg ip files o e He). cbn [trace fst].
    rewrite !logged_app. unfold output_log. destruct (truthy o); reflexivity.
  - rewrite (after_execution_run W cfg ip files o e He).
    destruct (cleanup_shape W cfg ip files) as (_ & _ & _ & L & _).
    destruct (cleanup W cfg {| ssh_peer := ip |} ip files) as [t [[]|x]];
      cbn [trace fst] in *.
    + rewrite !logged_app, L. unfold output_log. destruct (truthy o); reflexivity.
    + rewrite !logged_app, L. reflexivity.
Qed.

End Shapes.

(* ===================================================================== *)
(** ** More about the workflow of one host *)
(* ===================================================================== *)

(** Case analysis along [workflow_body_run]: one goal for each way the
    workflow can end. *)
Ltac workflow_cases W cfg ip :=
  rewrite (send_files_and_execute_run W cfg ip), (workflow_body_run W cfg ip);
  cbv zeta;
  destruct (outcome (open_session W cfg ip)) as [c|x] eqn:Hopen;
  [ destruct (w_isdir W (LOCAL_DIR cfg)) eqn:Hdir; cbn [negb];
    [ destruct (outcome (transfer_stage W cfg ip)) as [files|x] eqn:Hstage;
      [ destruct (w_exec W ip (chmod_cmd cfg)) as [s|x] eqn:Hchmod;
        [ destruct (w_exec W ip (run_cmd cfg)) as [[out err]|x] eqn:Hrun;
          [ destruct (decode out) as [o|] eqn:Hout;
            [ destruct (decode err) as [e|] eqn:Herr;
              [ destruct (outcome (after_execution W cfg {| ssh_peer := ip |} ip
                                     (transfer_record W cfg ip) (strip o) (strip e)))
                  as [[]|x] eqn:Hpolicy
              | ]
            | ]
          | ]
        | ]
      | ]
    | ]
  | ];
  cbn [trace outcome fst snd].

Section Workflow.

Variable W : World.
Variable cfg : Config.

Lemma transfer_effect_no_connect t :
  forallb transfer_effect t = true -> filter is_connect t = [].
Proof.
  induction t as [|e t IH]; intros H; [reflexivity|].
  cbn [forallb] in H. apply andb_true_iff in H. destruct H as [He Ht].
  cbn [filter]. rewrite (IH Ht). destruct e; try discriminate He; reflexivity.
Qed.

Lemma transfer_stage_readers ip :
  (forall h, commands h (trace (transfer_stage W cfg ip)) = [])
  /\ logged true (trace (transfer_stage W cfg ip)) = []
  /\ filter is_connect (trace (transfer_stage W cfg ip)) = [].
Proof.
  destruct (transfer_stage_shape W cfg ip) as (S1 & _ & _).
  destruct (transfer_effect_readers _ S1) as (S4 & _ & S6).
  split; [exact S4|]. split; [exact S6|]. now apply transfer_effect_no_connect.
Qed.

Lemma firstn_map_cleanup k l :
  map (cleanup_cmd cfg) (firstn k l) = firstn k (map (cleanup_cmd cfg) l).
Proof. symmetry. apply firstn_map. Qed.

Lemma commands_first ip : commands ip (first_commands cfg ip) = [chmod_cmd cfg; run_cmd cfg].
Proof. unfold first_commands. cbn [commands]. now rewrite str_eqb_refl. Qed.

Lemma commands_handler ip x h :
  commands h [Print (exception_msg ip x); LogMessage (exception_msg ip x) true] = [].
Proof. reflexivity. Qed.

End Workflow.

(** X1.  The commands a workflow executes on its host are, in this order,
    the chmod of the target, its run, and the deletions of the recorded
    files; the workflow may stop anywhere along that list, and runs nothing
    else. *)
Theorem workflow_commands_in_order (W : World) (cfg : Config) (ip : str) :
  exists k,
    commands ip (trace (send_files_and_execute W cfg ip))
    = firstn k (chmod_cmd cfg :: run_cmd cfg
                :: map (cleanup_cmd cfg) (transfer_record W cfg ip)).
Proof.
  destruct (open_session_no_commands W cfg ip) as (C0 & _).
  destruct (transfer_stage_readers W cfg ip) as (C1 & _).
  workflow_cases W cfg ip;
    rewrite ?commands_app, ?commands_first, ?commands_handler, ?C1;
    cbn [commands]; rewrite ?C0, ?str_eqb_refl; cbn [app].
  - destruct (after_execution_any W cfg ip (transfer_record W cfg ip) (strip o) (strip e))
      as ([k Hk] & _).
    exists (S (S k)). rewrite Hk, firstn_map_cleanup. reflexivity.
  - destruct (after_execution_any W cfg ip (transfer_record W cfg ip) (strip o) (strip e))
      as ([k Hk] & _).
    exists (S (S k)). rewrite Hk, firstn_map_cleanup, app_nil_r. reflexivity.
  - exists 2%nat. reflexivity.
  - exists 2%nat. reflexivity.
  - exists 2%nat. reflexivity.
  - exists 1%nat. reflexivity.
  - exists 0%nat. reflexivity.
  - exists 0%nat. reflexivity.
  - exists 0%nat. reflexivity.
Qed.

Section WorkflowReaders.

Variable W : World.
Variable cfg : Config.

Lemma open_session_run ip :
  open_session W cfg ip
  = if USE_SSH_KEY cfg && truthy (SSH_KEY_PATH cfg) then
      match w_load_key W (SSH_KEY_PATH cfg) with
      | Some x => ([], Raise x)
      | None =>
          ([Connect ip (REMOTE_USER cfg) (PKey (SSH_KEY_PATH cfg))],
           match w_connect W ip with
           | None => Return {| ssh_peer := ip |}
           | Some x => Raise x
           end)
      end
    else
      ([Connect ip (REMOTE_USER cfg)
          (Password (if USE_SSH_KEY cfg then None else Some (REMOTE_PASSWORD cfg)))],
       match w_connect W ip with
       | None => Return {| ssh_peer := ip |}
       | Some x => Raise x
       end).
Proof.
  unfold open_session, create_ssh_client, connect, from_private_key_file.
  destruct (USE_SSH_KEY cfg); cbn [andb];
    [destruct (truthy (SSH_KEY_PATH cfg)); [destruct (w_load_key W (SSH_KEY_PATH cfg))|]|];
    destruct (w_connect W ip); reflexivity.
Qed.

Lemma open_session_connects ip :
  filter is_connect (trace (open_session W cfg ip)) = trace (open_session W cfg ip)
  /\ filter is_transfer (trace (open_session W cfg ip)) = []
  /\ copied_entries ip (trace (open_session W cfg ip)) = []
  /\ deleted_entries ip (trace (open_session W cfg ip)) = [].
Proof.
  destruct (open_session_shape W cfg ip) as [[->|[auth ->]] _]; repeat split.
Qed.



Lemma command_or_report_not_transfer ip e :
  command_or_report ip e -> is_transfer e = false.
Proof.
  intros [[c ->]|[(msg & b & ->)|[[text ->]| ->]]]; reflexivity.
Qed.

Lemma command_or_report_not_connect ip e :
  command_or_report ip e -> is_connect e = false.
Proof.
  intros [[c ->]|[(msg & b & ->)|[[text ->]| ->]]]; reflexivity.
Qed.

End WorkflowReaders.


(* ===================================================================== *)
(** ** The channel, the reports and the connection of a workflow *)
(* ===================================================================== *)

Section WorkflowMore.

Variable W : World.
Variable cfg : Config.



Lemma policy_no_transfer ip files o e :
  filter is_transfer (trace (after_execution W cfg {| ssh_peer := ip |} ip files o e)) = []
  /\ filter is_connect (trace (after_execution W cfg {| ssh_peer := ip |} ip files o e)) = [].
Proof.
  split; apply (only_filter_nil (command_or_report ip));
    try apply after_execution_only_commands.
  - apply command_or_report_not_transfer.
  - apply command_or_report_not_connect.
Qed.

Lemma network_on_host ip t :
  local_to ip t -> filter is_network t = on_host ip t.
Proof.
  intros Hl. unfold on_host. induction t as [|e t IH]; cbn [filter]; [reflexivity|].
  assert (Ht : local_to ip t) by (intros e' h Hin; apply Hl; now right).
  rewrite (IH Ht).
  destruct (host_of e) as [h|] eqn:He.
  - assert (h = ip) by (apply (Hl e h); [now left | exact He]). subst h.
    rewrite str_eqb_refl. destruct e; try discriminate He; reflexivity.
  - destruct e; try discriminate He; reflexivity.
Qed.












End WorkflowMore.
Section WorkflowStages.

Variable W : World.
Variable cfg : Config.




End WorkflowStages.





(** X6.  A workflow makes at most one connection attempt, to its own host
    as the configured user: with the key when one is configured, named and
    loaded, with none at all when loading the key raises, and with the
    password otherwise, which is absent when keys are asked for without a
    key path. *)
Theorem connection_attempt (W : World) (cfg : Config) (ip : str) :
  filter is_connect (trace (send_files_and_execute W cfg ip))
  = if USE_SSH_KEY cfg && truthy (SSH_KEY_PATH cfg) then
      match w_load_key W (SSH_KEY_PATH cfg) with
      | Some _ => []
      | None => [Connect ip (REMOTE_USER cfg) (PKey (SSH_KEY_PATH cfg))]
      end
    else
      [Connect ip (REMOTE_USER cfg)
         (Password (if USE_SSH_KEY cfg then None else Some (REMOTE_PASSWORD cfg)))].
Proof.
  assert (T0 : trace (open_session W cfg ip)
               = if USE_SSH_KEY cfg && truthy (SSH_KEY_PATH cfg) then
                   match w_load_key W (SSH_KEY_PATH cfg) with
                   | Some _ => []
                   | None => [Connect ip (REMOTE_USER cfg) (PKey (SSH_KEY_PATH cfg))]
                   end
                 else
                   [Connect ip (REMOTE_USER cfg)
                      (Password (if USE_SSH_KEY cfg then None
                                 else Some (REMOTE_PASSWORD cfg)))]).
  { rewrite open_session_run.
    destruct (USE_SSH_KEY cfg && truthy (SSH_KEY_PATH cfg));
      [destruct (w_load_key W (SSH_KEY_PATH cfg))|]; reflexivity. }
  rewrite <- T0.
  destruct (open_session_connects W cfg ip) as (F0 & _).
  destruct (transfer_stage_readers W cfg ip) as (_ & _ & F1).
  workflow_cases W cfg ip;
    rewrite ?filter_app; cbn [filter is_connect]; rewrite ?F0, ?F1;
    try rewrite (proj2 (policy_no_transfer W cfg ip _ _ _));
    unfold first_commands; cbn [filter is_connect app]; rewrite ?app_nil_r; reflexivity.
Qed.

(** X7.  Every network action of a workflow goes to the host it was started
    for. *)
Theorem workflow_stays_on_its_host (W : World) (cfg : Config) (ip : str) :
  filter is_network (trace (send_files_and_execute W cfg ip))
  = on_host ip (trace (send_files_and_execute W cfg ip)).
Proof. apply network_on_host, workflow_is_host_local. Qed.

(* ===================================================================== *)
(** ** The verdict on the script, and when it is reached *)
(* ===================================================================== *)

Section TextFacts.






End TextFacts.

Section Reached.

Variable W : World.
Variable cfg : Config.





End Reached.





Section Launch.

Variable W : World.
Variable cfg : Config.




End Launch.



(* ===================================================================== *)
(** ** The pools *)
(* ===================================================================== *)

Section TurnsFacts.

Context {A : Type}.

Lemma take_turn_permutation n (strands : list (list A)) a rest :
  take_turn n strands = Some (a, rest) ->
  Permutation (List.concat strands) (a :: List.concat rest).
Proof.
  revert n rest. induction strands as [|s ss IH]; intros n rest; cbn [take_turn].
  - discriminate.
  - destruct n as [|n].
    + destruct s as [|b s']; [discriminate|]. intros [= <- <-]. reflexivity.
    + destruct (take_turn n ss) as [[b ss']|] eqn:E; [|discriminate].
      intros [= <- <-]. cbn [List.concat]. rewrite (IH _ _ E).
      symmetry. apply Permutation_middle.
Qed.

(** A pool drops and repeats nothing. *)
Lemma merge_permutation turns (strands : list (list A)) :
  Permutation (merge turns strands) (List.concat strands).
Proof.
  revert strands. induction turns as [|n turns IH]; intros strands; cbn [merge].
  - reflexivity.
  - destruct (take_turn n strands) as [[a rest]|] eqn:E; [|apply IH].
    rewrite (take_turn_permutation _ _ _ _ E). constructor. apply IH.
Qed.

End TurnsFacts.

Section PoolFacts.

Lemma take_turn_pooled n strands e rest t :
  take_turn n strands = Some (e, rest) -> pooled rest t -> pooled strands (e :: t).
Proof.
  revert n rest t. induction strands as [|s ss IH]; intros n rest t; cbn [take_turn].
  - discriminate.
  - destruct n as [|n].
    + destruct s as [|b s']; [discriminate|]. intros [= <- <-] Hp.
      inversion Hp as [|s0 ss0 r all Hr Hi]; subst.
      econstructor; [exact Hr|]. now constructor.
    + destruct (take_turn n ss) as [[b ss']|] eqn:E; [|discriminate].
      intros [= <- <-] Hp.
      inversion Hp as [|s0 ss0 r all Hr Hi]; subst.
      econstructor; [exact (IH _ _ _ E Hr)|]. now constructor.
Qed.

Lemma concat_pooled strands : pooled strands (List.concat strands).
Proof.
  induction strands as [|s ss IH]; cbn [List.concat]; [constructor|].
  econstructor; [exact IH | apply interleaved_app].
Qed.

(** What a pool does is an interleaving of what its workers do. *)
Lemma merge_pooled turns strands : pooled strands (merge turns strands).
Proof.
  revert strands. induction turns as [|n turns IH]; intros strands; cbn [merge].
  - apply concat_pooled.
  - destruct (take_turn n strands) as [[e rest]|] eqn:E; [|apply IH].
    apply (take_turn_pooled _ _ _ _ _ E). apply IH.
Qed.

Lemma interleaved_head e a b c :
  interleaved a b (e :: c) ->
  (exists a', a = e :: a' /\ interleaved a' b c)
  \/ (exists b', b = e :: b' /\ interleaved a b' c).
Proof.
  intros H. inversion H; subst; [left | right]; eauto.
Qed.

Lemma pooled_head strands e t :
  pooled strands (e :: t) ->
  exists n rest, take_turn n strands = Some (e, rest) /\ pooled rest t.
Proof.
  revert e t. induction strands as [|s ss IH]; intros e t Hp.
  - inversion Hp.
  - inversion Hp as [|s0 ss0 r all Hr Hi]; subst.
    destruct (interleaved_head _ _ _ _ Hi) as [(s' & -> & Hi')|(r' & -> & Hi')].
    + exists 0%nat, (s' :: ss). split; [reflexivity|]. econstructor; eauto.
    + destruct (IH _ _ Hr) as (n & rest & E & Hrest).
      exists (S n), (s :: rest). cbn [take_turn]. rewrite E.
      split; [reflexivity|]. econstructor; eauto.
Qed.

Lemma pooled_empty strands : pooled strands [] -> List.concat strands = [].
Proof.
  induction strands as [|s ss IH]; intros Hp; [reflexivity|].
  inversion Hp as [|s0 ss0 r all Hr Hi]; subst. inversion Hi; subst.
  cbn [List.concat app]. now apply IH.
Qed.

(** Every interleaving is the work of some scheduler. *)
Lemma pooled_merge strands t :
  pooled strands t -> exists turns, merge turns strands = t.
Proof.
  revert strands. induction t as [|e t IH]; intros strands Hp.
  - exists []. cbn [merge]. now apply pooled_empty.
  - destruct (pooled_head _ _ _ Hp) as (n & rest & E & Hrest).
    destruct (IH _ Hrest) as (turns & Hm).
    exists (n :: turns). cbn [merge]. now rewrite E, Hm.
Qed.

End PoolFacts.

(* ===================================================================== *)
(** ** With and without faults *)
(* ===================================================================== *)

(** When nothing is refused, the script of [Raising] is the script: the
    two unfold to the same calls. *)
Section Calm.

Variable W : World.
Variable cfg : Config.

Lemma transfer_calm scp ip listing acc :
  Raising.transfer no_faults W cfg scp ip listing acc = transfer W cfg scp ip listing acc.
Proof. reflexivity. Qed.

Lemma cleanup_calm c ip files :
  Raising.cleanup no_faults W cfg c ip files = cleanup W cfg c ip files.
Proof. reflexivity. Qed.

Lemma workflow_body_calm ip :
  Raising.workflow_body no_faults W cfg ip = workflow_body W cfg ip.
Proof. reflexivity. Qed.

Lemma send_files_and_execute_calm ip :
  Raising.send_files_and_execute no_faults W cfg ip = send_files_and_execute W cfg ip.
Proof. reflexivity. Qed.

End Calm.

(* ===================================================================== *)
(** ** The two [except] clauses *)
(* ===================================================================== *)

Section Boundaries.

Variable F : Faults.
Variable W : World.
Variable cfg : Config.

(** The clause of the workflow: what it does with an exception of the
    [try] body, and what of its own leaves the workflow. *)
Lemma raising_send_files_and_execute_run ip :
  Raising.send_files_and_execute F W cfg ip
  = let body := Raising.workflow_body F W cfg ip in
    match outcome body with
    | Return a => (trace body, Return a)
    | Raise e =>
        match f_print F (exception_msg ip e) with
        | Some x => (trace body, Raise x)
        | None =>
            match f_log F (exception_msg ip e) true with
            | Some x => (trace body ++ [Print (exception_msg ip e)], Raise x)
            | None =>
                (trace body
                 ++ [Print (exception_msg ip e); LogMessage (exception_msg ip e) true],
                 Return tt)
            end
        end
    end.
Proof.
  unfold Raising.send_files_and_execute, try_except. cbv zeta.
  destruct (Raising.workflow_body F W cfg ip) as [t [[]|e]];
    cbn [trace outcome fst snd]; [reflexivity|].
  unfold Raising.print, Raising.log, exception_msg.
  destruct (f_print F (ip ++ u": ❌ " ++ exc_str e)) as [x|].
  - cbn. now rewrite app_nil_r.
  - destruct (f_log F (ip ++ u": ❌ " ++ exc_str e) true) as [x|]; reflexivity.
Qed.

End Boundaries.

Section RaisingLocal.

Variable F : Faults.
Variable W : World.
Variable cfg : Config.

Lemma local_to_print ip text : local_to ip (trace (Raising.print F text)).
Proof.
  unfold Raising.print. destruct (f_print F text);
    [apply local_to_nil | now apply local_to_silent].
Qed.

Lemma local_to_log ip msg error : local_to ip (trace (Raising.log F msg error)).
Proof.
  unfold Raising.log. destruct (f_log F msg error);
    [apply local_to_nil | now apply local_to_silent].
Qed.

Lemma local_to_raising_transfer ip listing acc :
  local_to ip (trace (Raising.transfer F W cfg {| scp_peer := ip |} ip listing acc)).
Proof.
  revert acc. induction listing as [|f rest IH]; intros acc; cbn [Raising.transfer].
  - apply local_to_nil.
  - destruct (w_isfile W (os_path_join (LOCAL_DIR cfg) f)); [|apply IH].
    apply local_to_bind.
    + unfold scp_put. apply local_to_bind.
      * apply local_to_one. cbn. intros h [= <-]. reflexivity.
      * intros _ _. destruct (w_put W _ _); apply local_to_nil.
    + intros _ _. apply local_to_bind; [apply local_to_log|].
      intros _ _. apply IH.
Qed.

Lemma local_to_raising_cleanup ip files :
  local_to ip (trace (Raising.cleanup F W cfg {| ssh_peer := ip |} ip files)).
Proof.
  induction files as [|f rest IH]; cbn [Raising.cleanup]; [apply local_to_nil|].
  apply local_to_bind; [apply local_to_exec|]. intros _ _.
  apply local_to_bind; [apply local_to_log|]. intros _ _. exact IH.
Qed.

Lemma local_to_raising_after_execution ip files o e :
  local_to ip (trace (Raising.after_execution F W cfg {| ssh_peer := ip |} ip files o e)).
Proof.
  unfold Raising.after_execution.
  apply local_to_bind.
  - destruct (truthy e).
    + apply local_to_bind; [apply local_to_print|].
      intros _ _. apply local_to_log.
    + apply local_to_bind; [apply local_to_print|]. intros _ _.
      apply local_to_bind; [apply local_to_log|]. intros _ _.
      apply local_to_bind; [apply local_to_raising_cleanup|]. intros _ _.
      apply local_to_print.
  - intros _ _. apply local_to_bind.
    + destruct (truthy o); [apply local_to_log | apply local_to_nil].
    + intros _ _. apply local_to_one. cbn. intros h [= <-]. reflexivity.
Qed.

(** With or without faults, the workflow of a host talks to that host
    only. *)
Lemma raising_workflow_is_host_local ip :
  local_to ip (trace (Raising.send_files_and_execute F W cfg ip)).
Proof.
  unfold Raising.send_files_and_execute. apply local_to_try_except.
  2:{ intros x. apply local_to_bind; [apply local_to_print|].
      intros _ _. apply local_to_log. }
  unfold Raising.workflow_body. fold (open_session W cfg ip).
  apply local_to_bind; [apply local_to_print|]. intros _ _.
  apply local_to_bind.
  { destruct (open_session_shape W cfg ip) as [[->|[auth ->]] _].
    - apply local_to_nil.
    - apply local_to_one. cbn. intros h [= <-]. reflexivity. }
  intros c Hc.
  destruct (open_session_shape W cfg ip) as [_ H]. destruct (H c Hc) as (-> & _).
  destruct (w_isdir W (LOCAL_DIR cfg)); cbn [negb].
  - apply local_to_bind.
    { unfold with_SCPClient. cbn [ssh_peer scp_peer].
      apply local_to_bind.
      - apply local_to_one. cbn. intros h [= <-]. reflexivity.
      - intros _ _. destruct (w_scp_open W ip); [apply local_to_nil|].
        apply local_to_try_finally.
        + apply local_to_bind.
          * unfold listdir. destruct (w_listdir W (LOCAL_DIR cfg)); apply local_to_nil.
          * intros listing _. apply local_to_raising_transfer.
        + apply local_to_one. cbn. intros h [= <-]. reflexivity. }
    intros files _.
    apply local_to_bind; [apply local_to_exec|]. intros _ _.
    apply local_to_bind; [apply local_to_exec|]. intros streams _.
    apply local_to_bind.
    { unfold read_decode_strip. destruct (decode (fst streams)); apply local_to_nil. }
    intros o _. apply local_to_bind.
    { unfold read_decode_strip. destruct (decode (snd streams)); apply local_to_nil. }
    intros e _. apply local_to_raising_after_execution.
  - apply local_to_bind; [apply local_to_print|]. intros _ _.
    apply local_to_bind; [apply local_to_log|]. intros _ _.
    apply local_to_one. cbn. intros h [= <-]. reflexivity.
Qed.

(** The collecting loop: what it does with a result. *)
Lemma collect_run ip r :
  Raising.collect F ip r
  = match r with
    | Return _ => ([], Return tt)
    | Raise e =>
        match f_print F (uncaught_msg ip e) with
        | Some x => ([], Raise x)
        | None =>
            match f_log F (uncaught_msg ip e) true with
            | Some x => ([Print (uncaught_msg ip e)], Raise x)
            | None =>
                ([Print (uncaught_msg ip e); LogMessage (uncaught_msg ip e) true],
                 Return tt)
            end
        end
    end.
Proof.
  unfold Raising.collect, try_except, future_result.
  destruct r as [[]|e]; [reflexivity|]. cbn [app].
  unfold Raising.print, Raising.log, uncaught_msg.
  destruct (f_print F _) as [x|]; [reflexivity|].
  destruct (f_log F _ true) as [x|]; reflexivity.
Qed.

Lemma collect_all_silent completed e :
  In e (trace (Raising.collect_all F completed)) -> host_of e = None.
Proof.
  induction completed as [|[ip r] rest IH]; cbn [Raising.collect_all]; [intros []|].
  rewrite bind_run. cbn [trace fst]. rewrite collect_run. intros Hin.
  apply in_app_or in Hin. destruct Hin as [Hin|Hin].
  - destruct r as [[]|x]; [contradiction|].
    destruct (f_print F _); [contradiction|].
    destruct (f_log F _ true); cbn [trace fst In] in Hin;
      repeat (destruct Hin as [<-|Hin]; [reflexivity|]); contradiction.
  - destruct (outcome _); [now apply IH | contradiction].
Qed.

(** The loop raises only what its own clause raises, on a workflow that
    raised. *)
Lemma collect_all_raise completed x :
  outcome (Raising.collect_all F completed) = Raise x ->
  exists ip e,
    In (ip, Raise e) completed
    /\ (f_print F (uncaught_msg ip e) = Some x
        \/ f_log F (uncaught_msg ip e) true = Some x).
Proof.
  induction completed as [|[ip r] rest IH]; cbn [Raising.collect_all]; [discriminate|].
  rewrite bind_run. cbn [outcome snd]. rewrite collect_run.
  destruct r as [[]|e]; cbn [outcome snd].
  - intros H. destruct (IH H) as (i & e & Hin & Hf). exists i, e. split; [now right | exact Hf].
  - destruct (f_print F (uncaught_msg ip e)) as [y|] eqn:Hp; cbn [outcome snd].
    + intros [= <-]. exists ip, e. split; [now left | now left].
    + destruct (f_log F (uncaught_msg ip e) true) as [y|] eqn:Hl; cbn [outcome snd].
      * intros [= <-]. exists ip, e. split; [now left | now right].
      * intros H. destruct (IH H) as (i & e' & Hin & Hf). exists i, e'.
        split; [now right | exact Hf].
Qed.

Lemma collect_all_returns completed :
  (forall ip r, In (ip, r) completed -> r = Return tt) ->
  Raising.collect_all F completed = ([], Return tt).
Proof.
  induction completed as [|[ip r] rest IH]; intros H; cbn [Raising.collect_all];
    [reflexivity|].
  rewrite (H ip r (or_introl eq_refl)), bind_run, collect_run.
  cbn [trace outcome fst snd app]. rewrite IH; [reflexivity|].
  intros i r' Hin. apply (H i). now right.
Qed.

(** The deployment pass, step by step. *)
Lemma deploy_run ips :
  Raising.deploy F W cfg ips
  = if (MAX_PARALLEL_TASKS cfg =? 0)%N then
      ([], Raise (Exception (u"max_workers must be greater than 0")))
    else
      let main_thread :=
        Raising.collect_all F
          (merge (w_completion_turns W)
             (map (fun ip => [(ip, outcome (Raising.send_files_and_execute F W cfg ip))])
                ips)) in
      (merge (w_deploy_turns W)
         (trace main_thread
          :: map (fun ip => trace (Raising.send_files_and_execute F W cfg ip)) ips),
       outcome main_thread).
Proof.
  unfold Raising.deploy. destruct (MAX_PARALLEL_TASKS cfg =? 0)%N; [reflexivity|].
  cbv zeta. rewrite !map_map. reflexivity.
Qed.

End RaisingLocal.

Section PassFacts.

Variable F : Faults.
Variable W : World.
Variable cfg : Config.

Lemma on_host_silent ip t :
  (forall e, In e t -> host_of e = None) -> on_host ip t = [].
Proof.
  intros Ht. unfold on_host. induction t as [|e t IH]; [reflexivity|].
  cbn [filter]. rewrite (Ht e (or_introl eq_refl)). apply IH.
  intros e' He'. apply Ht. now right.
Qed.


(** The main thread among the workers: it has no call on the network, so
    each host sees what the workers do. *)
Lemma pooled_with_main_thread c ts t :
  pooled (c :: ts) t -> (forall e, In e c -> host_of e = None) ->
  exists w,
    pooled ts w
    /\ (forall ip, on_host ip t = on_host ip w)
    /\ (forall error, Permutation (logged error t) (logged error w ++ logged error c)).
Proof.
  intros Hp Hc. inversion Hp as [|c0 ts0 w all Hw Hi]; subst. exists w.
  split; [exact Hw|]. split.
  - intros ip.
    pose proof (interleaved_filter (fun e => match host_of e with
                                             | Some h => str_eqb h ip
                                             | None => false
                                             end) _ _ _ Hi) as H.
    fold (on_host ip c) in H. fold (on_host ip w) in H. fold (on_host ip t) in H.
    rewrite (on_host_silent ip c Hc) in H. now apply interleaved_nil_l in H.
  - intros error. rewrite (interleaved_logged error _ _ _ Hi). apply Permutation_app_comm.
Qed.

Lemma in_merge_singletons {A B} turns (f : A -> B) l b :
  In b (merge turns (map (fun a => [f a]) l)) -> exists a, In a l /\ b = f a.
Proof.
  intros Hin.
  apply (Permutation_in _ (merge_permutation turns _)) in Hin.
  apply in_concat in Hin. destruct Hin as (s & Hs & Hb).
  apply in_map_iff in Hs. destruct Hs as (a & <- & Ha).
  destruct Hb as [<-|[]]. now exists a.
Qed.

End PassFacts.

(** C4, as amended.  The [except] clause of a workflow takes every
    exception of its [try] body.  When the [print] and the [log_message] of
    the clause go through, the exception is logged as one error entry that
    starts with the host's address, and the workflow returns; what one of
    the two raises leaves the workflow, nothing being logged, and a
    workflow raises nothing else.  Once the pool exists, with at least one
    worker, every workflow runs in full whatever the others, and the main
    thread, raise: each host sees the calls of its own workflow, in order,
    and the logs receive the entries of all of them.  The pass itself
    raises only for want of a pool, before any workflow, or from the
    [except] clause of its collecting loop, on a workflow that raised. *)
Theorem workflow_exceptions_are_contained (F : Faults) (W : World) (cfg : Config) :
  (forall ip e,
      outcome (Raising.workflow_body F W cfg ip) = Raise e ->
      let body := trace (Raising.workflow_body F W cfg ip) in
      let msg := exception_msg ip e in
      startswith ip msg = true
      /\ Raising.send_files_and_execute F W cfg ip
         = match f_print F msg, f_log F msg true with
           | None, None => (body ++ [Print msg; LogMessage msg true], Return tt)
           | None, Some x => (body ++ [Print msg], Raise x)
           | Some x, _ => (body, Raise x)
           end)
  /\ (forall ip x,
        outcome (Raising.send_files_and_execute F W cfg ip) = Raise x ->
        exists e,
          outcome (Raising.workflow_body F W cfg ip) = Raise e
          /\ (f_print F (exception_msg ip e) = Some x
              \/ f_log F (exception_msg ip e) true = Some x))
  /\ (forall ips,
        MAX_PARALLEL_TASKS cfg <> 0%N -> NoDup ips ->
        let t := trace (Raising.deploy F W cfg ips) in
        (forall ip, In ip ips ->
           on_host ip t = on_host ip (trace (Raising.send_files_and_execute F W cfg ip)))
        /\ (forall error, exists collected,
              Permutation (logged error t)
                (flat_map (fun ip => logged error
                                       (trace (Raising.send_files_and_execute F W cfg ip)))
                          ips
                 ++ collected)))
  /\ (forall ips,
        MAX_PARALLEL_TASKS cfg = 0%N ->
        Raising.deploy F W cfg ips
        = ([], Raise (Exception (u"max_workers must be greater than 0"))))
  /\ (forall ips x,
        MAX_PARALLEL_TASKS cfg <> 0%N ->
        outcome (Raising.deploy F W cfg ips) = Raise x ->
        exists ip e,
          In ip ips
          /\ outcome (Raising.send_files_and_execute F W cfg ip) = Raise e
          /\ (f_print F (uncaught_msg ip e) = Some x
              \/ f_log F (uncaught_msg ip e) true = Some x)).
Proof.
  split; [|split; [|split; [|split]]].
  - intros ip e He. cbv zeta. split; [apply startswith_app|].
    rewrite raising_send_files_and_execute_run. cbv zeta. rewrite He.
    destruct (f_print F (exception_msg ip e)); [reflexivity|].
    destruct (f_log F (exception_msg ip e) true); reflexivity.
  - intros ip x. rewrite raising_send_files_and_execute_run. cbv zeta.
    destruct (outcome (Raising.workflow_body F W cfg ip)) as [[]|e];
      cbn [outcome snd]; [discriminate|].
    destruct (f_print F (exception_msg ip e)) as [y|] eqn:Hp; cbn [outcome snd].
    + intros [= <-]. exists e. split; [reflexivity | now left].
    + destruct (f_log F (exception_msg ip e) true) as [y|] eqn:Hl; cbn [outcome snd];
        [|discriminate].
      intros [= <-]. exists e. split; [reflexivity | now right].
  - intros ips Hmax Hnd. cbv zeta. rewrite deploy_run.
    apply N.eqb_neq in Hmax. rewrite Hmax. cbv zeta. cbn [trace fst].
    set (c := Raising.collect_all F _).
    destruct (pooled_with_main_thread (trace c) _ _
                (merge_pooled (w_deploy_turns W)
                   (trace c :: map (fun i => trace (Raising.send_files_and_execute F W cfg i))
                                   ips))
                (collect_all_silent F _)) as (w & Hw & Hon & Hlog).
    split.
    + intros ip Hin. rewrite Hon.
      apply (pooled_on_host (fun i => trace (Raising.send_files_and_execute F W cfg i)) ips);
        auto.
      intros i. apply raising_workflow_is_host_local.
    + intros error. eexists. rewrite Hlog.
      apply Permutation_app_tail.
      rewrite (pooled_logged error _ _ Hw).
      rewrite flat_map_concat_map, map_map, <- flat_map_concat_map. reflexivity.
  - intros ips Hmax. rewrite deploy_run. apply N.eqb_eq in Hmax. now rewrite Hmax.
  - intros ips x Hmax. rewrite deploy_run. apply N.eqb_neq in Hmax. rewrite Hmax.
    cbv zeta. cbn [outcome snd]. intros Hx.
    destruct (collect_all_raise F _ x Hx) as (ip & e & Hin & Hf).
    apply in_merge_singletons in Hin. destruct Hin as (i & Hi & E).
    injection E as -> He. exists i, e. repeat split; auto.
Qed.

(** C4, as stated, fails when the error log cannot be written: the host
    at 192.168.1.8 refuses the connection, the [except] clause of its
    workflow prints the error but raises on logging it, and so does the
    clause of the collecting loop.  The exception leaves the workflow, no
    error entry is written, and [main] raises, although the two other hosts
    were served in full. *)
Lemma exception_escapes_when_the_log_fails :
  let denied := Exception (u"[Errno 13] Permission denied: '/home/phason/Logs/error_log.txt'") in
  outcome (Raising.workflow_body sealed_error_log refusing_world source_config pi_8)
  = Raise (Exception (u"[Errno 111] Connection refused"))
  /\ outcome (Raising.send_files_and_execute sealed_error_log refusing_world source_config pi_8)
     = Raise denied
  /\ outcome (Raising.main sealed_error_log refusing_world source_config) = Raise denied
  /\ logged true (trace (Raising.main sealed_error_log refusing_world source_config)) = []
  /\ deletions pi (trace (Raising.main sealed_error_log refusing_world source_config))
     = [u"rm -f /home/prod/a.sh"]
  /\ deletions pi_9 (trace (Raising.main sealed_error_log refusing_world source_config))
     = [u"rm -f /home/prod/a.sh"].
Proof. vm_compute. repeat split. Qed.

(** Three live hosts, the middle one refusing the connection, and the
    workflows taking turns: the error of the middle one is the only error
    entry, and the hosts before and after it are served in full. *)
Example refused_host_does_not_stop_the_pass :
  let t := trace (main busy_world source_config) in
  logged true t = [u"192.168.1.8: ❌ [Errno 111] Connection refused"]
  /\ deletions pi t = [u"rm -f /home/prod/a.sh"]
  /\ deletions pi_8 t = []
  /\ deletions pi_9 t = [u"rm -f /home/prod/a.sh"]
  /\ closes pi t = 1%nat /\ closes pi_9 t = 1%nat
  /\ outcome (main busy_world source_config) = Return tt.
Proof. vm_compute. repeat split. Qed.

(* ===================================================================== *)
(** ** The run of [main] *)
(* ===================================================================== *)

Section MainRun.

Variable W : World.
Variable cfg : Config.

Lemma print_each_run ips :
  Raising.print_each no_faults ips = (map (fun ip => Print (u" - " ++ ip)) ips, Return tt).
Proof.
  induction ips as [|ip rest IH]; cbn [Raising.print_each map]; [reflexivity|].
  rewrite bind_run, IH. reflexivity.
Qed.

(** Without faults no workflow raises, and the collecting loop has nothing
    to do. *)
Lemma calm_deploy_run ips :
  Raising.deploy no_faults W cfg ips
  = if (MAX_PARALLEL_TASKS cfg =? 0)%N then
      ([], Raise (Exception (u"max_workers must be greater than 0")))
    else (workers W cfg ips, Return tt).
Proof.
  rewrite deploy_run. destruct (MAX_PARALLEL_TASKS cfg =? 0)%N; [reflexivity|].
  cbv zeta. rewrite collect_all_returns.
  - reflexivity.
  - intros ip r Hin. apply in_merge_singletons in Hin.
    destruct Hin as (i & _ & E). injection E as _ ->.
    apply (send_files_and_execute_returns W cfg i).
Qed.

(** [main], step by step, on a console and a disk that take every call. *)
Lemma main_run :
  main W cfg
  = match w_local_ip W with
    | Raise x => ([EnsureLogDir], Raise x)
    | Return local =>
        let ips := targets W cfg local in
        let scanned :=
          EnsureLogDir :: banner W cfg local
          ++ [LogMessage (started_msg W) false; LogMessage (addresses_msg W local) false;
              Print (u"[*] Scanning network for active devices...")]
          ++ probes W local ++ found ips in
        match ips with
        | [] =>
            (scanned ++ [Print (u"❌ No active devices found.");
                         LogMessage no_devices_msg true],
             Return tt)
        | _ :: _ =>
            let starting :=
              Print ([newline] ++ u"[>] Starting full parallel deployment..." ++ [newline]) in
            if (MAX_PARALLEL_TASKS cfg =? 0)%N then
              (scanned ++ [starting],
               Raise (Exception (u"max_workers must be greater than 0")))
            else
              (scanned ++ starting :: workers W cfg ips
               ++ [Print (completed_msg W ips); LogMessage (finished_msg W) false],
               Return tt)
        end
    end.
Proof.
  unfold main, Raising.main, get_local_ip.
  destruct (w_local_ip W) as [local|x]; [|reflexivity].
  cbv zeta. unfold Raising.scan.
  repeat (rewrite bind_run;
          cbn [trace outcome fst snd emit ret emit_all Raising.print Raising.log
                 Raising.ensure_log_dir f_print f_log f_makedirs no_faults]).
  rewrite print_each_run. cbn [trace outcome fst snd].
  change (active_ips cfg (map (ping_ip W) (ip_list local)) (ip_str local) (get_gateway_ip W))
    with (targets W cfg local).
  change (merge (w_scan_turns W) (map (fun ip => [Ping ip]) (ip_list local)))
    with (probes W local).
  destruct (targets W cfg local) as [|ip rest] eqn:T; cbn [negb].
  - cbn [trace outcome fst snd]. unfold banner, found. cbn [app map].
    rewrite <- !app_assoc. reflexivity.
  - rewrite calm_deploy_run.
    destruct (MAX_PARALLEL_TASKS cfg =? 0)%N; cbn [trace outcome fst snd];
      unfold banner, found; cbn [app map]; rewrite <- ?app_assoc; cbn [app];
      rewrite <- ?app_assoc; reflexivity.
Qed.

End MainRun.

Section MainFacts.

Variable W : World.
Variable cfg : Config.

Lemma logged_flat_map {A} b (f : A -> list Effect) l :
  logged b (flat_map f l) = flat_map (fun a => logged b (f a)) l.
Proof.
  induction l as [|a l IH]; cbn [flat_map]; [reflexivity|].
  now rewrite logged_app, IH.
Qed.

Lemma filter_flat_map {A B} (p : B -> bool) (f : A -> list B) l :
  filter p (flat_map f l) = flat_map (fun a => filter p (f a)) l.
Proof.
  induction l as [|a l IH]; cbn [flat_map]; [reflexivity|].
  now rewrite filter_app, IH.
Qed.

Lemma found_silent ips :
  (forall b, logged b (found ips) = []) /\ filter is_network (found ips) = []
  /\ (forall e, In e (found ips) -> host_of e = None).
Proof.
  unfold found. split; [|split].
  - intros b. cbn [logged]. induction ips as [|ip rest IH]; [reflexivity | exact IH].
  - cbn [filter is_network]. induction ips as [|ip rest IH]; [reflexivity | exact IH].
  - intros e [<-|Hin]; [reflexivity|]. apply in_map_iff in Hin.
    destruct Hin as (ip & <- & _). reflexivity.
Qed.

(** A workflow leaves at most one entry in the error log. *)
Lemma one_error_entry_at_most ip :
  (List.length (logged true (trace (send_files_and_execute W cfg ip))) <= 1)%nat.
Proof.
  destruct (open_session_no_commands W cfg ip) as (_ & _ & _ & L0 & _).
  destruct (transfer_stage_readers W cfg ip) as (_ & L1 & _).
  workflow_cases W cfg ip;
    unfold first_commands;
    rewrite ?logged_app, ?L1; cbn [logged Bool.eqb]; rewrite ?L0;
    rewrite ?after_execution_errors; cbn [app List.length]; try lia.
  - destruct (truthy (strip e)); cbn [List.length]; lia.
  - destruct (truthy (strip e)) eqn:T; cbn [List.length app]; [|lia].
    rewrite (after_execution_failed W cfg ip _ _ _ T) in Hpolicy. discriminate Hpolicy.
Qed.

Lemma error_entries_bound ips :
  (List.length (flat_map (fun ip => logged true (trace (send_files_and_execute W cfg ip))) ips)
   <= List.length ips)%nat.
Proof.
  induction ips as [|ip rest IH]; cbn [flat_map List.length]; [lia|].
  rewrite length_app. pose proof (one_error_entry_at_most ip). lia.
Qed.



Lemma banner_silent local :
  (forall b, logged b (banner W cfg local) = [])
  /\ filter is_network (banner W cfg local) = []
  /\ (forall e, In e (banner W cfg local) -> host_of e = None).
Proof.
  split; [intros b; reflexivity|]. split; [reflexivity|].
  intros e Hin. unfold banner in Hin. cbn [In] in Hin.
  repeat (destruct Hin as [<-|Hin]; [reflexivity|]). contradiction.
Qed.

Lemma filter_none {A} (p : A -> bool) l :
  (forall a, In a l -> p a = false) -> filter p l = [].
Proof.
  intros H. induction l as [|a l IH]; [reflexivity|]. cbn [filter].
  rewrite (H a (or_introl eq_refl)). apply IH. intros b Hb. apply H. now right.
Qed.

(** What the workers of the deployment do is an interleaving of the
    workflows. *)
Lemma workers_pooled ips :
  pooled (map (fun ip => trace (send_files_and_execute W cfg ip)) ips) (workers W cfg ips).
Proof.
  pose proof (merge_pooled (w_deploy_turns W)
                ([] :: map (fun ip => trace (send_files_and_execute W cfg ip)) ips)) as H.
  inversion H as [|c ts w all Hw Hi]; subst. apply interleaved_nil_l in Hi.
  unfold workers. rewrite Hi. exact Hw.
Qed.

Lemma workers_nil : workers W cfg [] = [].
Proof. pose proof (workers_pooled []) as H. cbn [map] in H. now inversion H. Qed.

(** The scan sends probes and nothing else, one to each address. *)
Lemma in_probes local e :
  In e (probes W local) <-> exists ip, In ip (ip_list local) /\ e = Ping ip.
Proof.
  unfold probes. split.
  - apply in_merge_singletons.
  - intros (ip & Hin & ->).
    apply (Permutation_in _ (Permutation_sym (merge_permutation (w_scan_turns W) _))).
    apply in_concat. exists [Ping ip]. split; [|now left].
    apply in_map_iff. now exists ip.
Qed.



Lemma probes_readers local :
  (forall b, logged b (probes W local) = [])
  /\ filter is_session (probes W local) = [].
Proof.
  assert (H : forall t, (forall e, In e t -> exists ip, e = Ping ip) ->
                        (forall b, logged b t = []) /\ filter is_session t = []).
  { induction t as [|e t IH]; intros Ht; [split; reflexivity|].
    destruct (Ht e (or_introl eq_refl)) as [ip ->].
    destruct IH as [L S]; [intros e' He'; apply Ht; now right|].
    split; [intros b; cbn [logged]; apply L | cbn [filter is_session]; exact S]. }
  apply H. intros e He. apply in_probes in He. destruct He as (ip & _ & ->). eauto.
Qed.




End MainFacts.

(** X11.  [main] raises what [os.makedirs] raises, having done nothing,
    and otherwise what [get_local_ip] raises, having only made sure of the
    log directory.  On a console and a disk that take every call it returns
    in every other case but one: with hosts to deploy to and
    [MAX_PARALLEL_TASKS] at 0 the pool cannot be made, and [main] raises
    after the scan without a single session call. *)
Theorem main_raises_when (F : Faults) (W : World) (cfg : Config) :
  (forall x, f_makedirs F = Some x -> Raising.main F W cfg = ([], Raise x))
  /\ (forall x, f_makedirs F = None -> w_local_ip W = Raise x ->
        Raising.main F W cfg = ([EnsureLogDir], Raise x))
  /\ (forall local,
        w_local_ip W = Return local ->
        (outcome (main W cfg) = Return tt
         <-> targets W cfg local = [] \/ MAX_PARALLEL_TASKS cfg <> 0%N)
        /\ (forall x, outcome (main W cfg) = Raise x ->
              x = Exception (u"max_workers must be greater than 0")
              /\ filter is_session (trace (main W cfg)) = [])).
Proof.
  split; [|split].
  - intros x Hx. unfold Raising.main, Raising.ensure_log_dir. now rewrite Hx.
  - intros x Hd Hx. unfold Raising.main, Raising.ensure_log_dir, get_local_ip.
    now rewrite Hd, Hx.
  - intros local Hlocal. rewrite main_run, Hlocal. cbv zeta.
    destruct (banner_silent W cfg local) as (_ & _ & B).
    destruct (found_silent (targets W cfg local)) as (_ & _ & Fd).
    destruct (probes_readers W local) as (_ & P).
    destruct (targets W cfg local) as [|ip rest]; cbn [outcome snd].
    + split; [split; auto|]. intros x Hx. discriminate Hx.
    + destruct (MAX_PARALLEL_TASKS cfg =? 0)%N eqn:Hmax; cbn [trace outcome fst snd].
      * apply N.eqb_eq in Hmax. split.
        -- split; [discriminate|]. intros [H|H]; [discriminate H | contradiction].
        -- intros x [= <-]. split; [reflexivity|].
           change (EnsureLogDir :: banner W cfg local ++ ?r)
             with ([EnsureLogDir] ++ banner W cfg local ++ r).
           rewrite !filter_app, P.
           rewrite (filter_none is_session (banner W cfg local)),
             (filter_none is_session (found (ip :: rest))); [reflexivity| |].
           ++ intros e He. specialize (Fd e He). destruct e; try discriminate Fd; reflexivity.
           ++ intros e He. specialize (B e He). destruct e; try discriminate B; reflexivity.
      * apply N.eqb_neq in Hmax. split.
        -- split; [intros _; now right | reflexivity].
        -- intros x Hx. discriminate Hx.
Qed.

(** X11 on the sample network with [MAX_PARALLEL_TASKS] at 0: three hosts
    answer the scan, the pool is refused, and no session was asked for. *)
Lemma main_raises_when_witness :
  List.length (targets busy_world no_workers (of_octets 192 168 1 10)) = 3%nat
  /\ outcome (main busy_world no_workers)
     = Raise (Exception (u"max_workers must be greater than 0"))
  /\ filter is_session (trace (main busy_world no_workers)) = [].
Proof.
  destruct (main_raises_when no_faults busy_world no_workers) as (_ & _ & H).
  destruct (H (of_octets 192 168 1 10) eq_refl) as (_ & R).
  assert (E : outcome (main busy_world no_workers)
              = Raise (Exception (u"max_workers must be greater than 0")))
    by (vm_compute; reflexivity).
  split; [vm_compute; reflexivity|]. split; [exact E|]. exact (proj2 (R _ E)).
Defined.

(** X12.  What a run of [main] writes to the two logs when the pool can be
    made: the detailed log opens with the start entry and the addresses,
    goes on with the entries of the workflows and, when there was a host to
    deploy to, ends with the finish entry; the error log holds the entries
    of the workflows, at most one for each host, or the single entry that
    no device was found.  The entries of one workflow stand in its own
    order; how those of different workflows follow each other is the
    scheduler's choice. *)
Theorem main_logs (W : World) (cfg : Config) (local : IPv4Address) :
  w_local_ip W = Return local -> MAX_PARALLEL_TASKS cfg <> 0%N ->
  let ips := targets W cfg local in
  let t := trace (main W cfg) in
  exists w,
    pooled (map (fun ip => trace (send_files_and_execute W cfg ip)) ips) w
    /\ logged false t
       = started_msg W :: addresses_msg W local :: logged false w
         ++ match ips with [] => [] | _ :: _ => [finished_msg W] end
    /\ logged true t
       = match ips with [] => [no_devices_msg] | _ :: _ => logged true w end
    /\ (List.length (logged true t) <= Nat.max 1 (List.length ips))%nat.
Proof.
  intros Hlocal Hmax. cbv zeta. exists (workers W cfg (targets W cfg local)).
  split; [apply workers_pooled|].
  rewrite main_run, Hlocal. cbv zeta.
  destruct (banner_silent W cfg local) as (B & _).
  destruct (found_silent (targets W cfg local)) as (Fd & _).
  destruct (probes_readers W local) as (P & _).
  pose proof (error_entries_bound W cfg (targets W cfg local)) as Hb.
  pose proof (pooled_logged true _ _ (workers_pooled W cfg (targets W cfg local))) as Hp.
  apply Permutation_length in Hp.
  rewrite flat_map_concat_map, map_map, <- flat_map_concat_map in Hp.
  apply N.eqb_neq in Hmax.
  destruct (targets W cfg local) as [|ip rest]; cbn [trace fst].
  - rewrite workers_nil.
    change (EnsureLogDir :: banner W cfg local ++ ?r)
      with ([EnsureLogDir] ++ banner W cfg local ++ r).
    rewrite !logged_app, !B, !Fd, !P. cbn [logged Bool.eqb app List.length].
    repeat split. cbn. lia.
  - rewrite Hmax. cbn [trace fst].
    change (EnsureLogDir :: banner W cfg local ++ ?r)
      with ([EnsureLogDir] ++ banner W cfg local ++ r).
    change (Print ?a :: ?f ++ ?r) with ([Print a] ++ f ++ r).
    rewrite !logged_app, !B, !Fd, !P. cbn [logged Bool.eqb app].
    rewrite !app_nil_r. repeat split. rewrite Hp. lia.
Qed.

(** X12 on the sample network with three live hosts whose workflows take
    turns: the error log holds the error entries of the three workflows,
    which is the one entry of the host that refuses the connection. *)
Lemma main_logs_witness :
  exists w,
    pooled (map (fun ip => trace (send_files_and_execute busy_world source_config ip))
              [pi; pi_8; pi_9]) w
    /\ logged true (trace (main busy_world source_config)) = logged true w
    /\ logged true (trace (main busy_world source_config))
       = [u"192.168.1.8: ❌ [Errno 111] Connection refused"].
Proof.
  pose proof (main_logs busy_world source_config (of_octets 192 168 1 10) eq_refl) as H.
  cbv zeta in H.
  assert (T : targets busy_world source_config (of_octets 192 168 1 10) = [pi; pi_8; pi_9])
    by (vm_compute; reflexivity).
  rewrite T in H. destruct H as (w & Hp & _ & E & _); [discriminate|].
  exists w. split; [exact Hp|]. split; [exact E|]. vm_compute. reflexivity.
Defined.

Section NoProbeInAWorkflow.

Variable W : World.
Variable cfg : Config.




End NoProbeInAWorkflow.





(* ===================================================================== *)
(** ** The gateway and the local address *)
(* ===================================================================== *)

Section Gateway.

Variable W : World.

Lemma split_from_fields s cur f :
  forallb (fun c => negb (is_space c)) cur = true ->
  In f (split_from s cur) ->
  f <> [] /\ forallb (fun c => negb (is_space c)) f = true.
Proof.
  revert cur. induction s as [|c r IH]; intros cur Hcur Hin; cbn [split_from] in Hin.
  - destruct (truthy cur) eqn:T; [|contradiction].
    destruct Hin as [<-|[]]. split; [now apply truthy_nonempty | exact Hcur].
  - destruct (is_space c) eqn:Hc.
    + destruct (truthy cur) eqn:T.
      * destruct Hin as [<-|Hin]; [split; [now apply truthy_nonempty | exact Hcur]|].
        now apply (IH []).
      * now apply (IH []).
    + apply (IH (cur ++ [c])); [|exact Hin].
      rewrite forallb_app, Hcur. cbn [forallb]. now rewrite Hc.
Qed.

(** The loop stops at the first line that starts with [default]. *)
Lemma scan_routes_first pre line post :
  (forall l, In l pre -> startswith (u"default") l = false) ->
  startswith (u"default") line = true ->
  scan_routes (pre ++ line :: post)
  = match nth_error (str_split line) 2 with
    | Some field => Return (Some field)
    | None => Raise (Exception (u"list index out of range"))
    end.
Proof.
  intros Hpre Hline. induction pre as [|l pre IH]; cbn [app scan_routes].
  - now rewrite Hline.
  - rewrite (Hpre l (or_introl eq_refl)). apply IH. intros l' Hl'. apply Hpre. now right.
Qed.

Lemma scan_routes_none lines :
  (forall l, In l lines -> startswith (u"default") l = false) ->
  scan_routes lines = Return None.
Proof.
  intros H. induction lines as [|l rest IH]; cbn [scan_routes]; [reflexivity|].
  rewrite (H l (or_introl eq_refl)). apply IH. intros l' Hl'. apply H. now right.
Qed.

Lemma scan_routes_some lines g :
  scan_routes lines = Return (Some g) ->
  exists line, In line lines /\ In g (str_split line).
Proof.
  induction lines as [|l rest IH]; cbn [scan_routes]; [discriminate|].
  destruct (startswith (u"default") l).
  - destruct (nth_error (str_split l) 2) as [f|] eqn:Hf; [|discriminate].
    intros H. injection H as <-. exists l. split; [now left|].
    now apply nth_error_In in Hf.
  - intros H. destruct (IH H) as (line & Hin & Hg). exists line. split; [now right | exact Hg].
Qed.

End Gateway.

(** X15.  The gateway is read off the first line of the routing table that
    starts with [default]: its third field when it has one, and nothing
    when it has not, whatever the lines after it say. *)
Theorem gateway_first_default_line (W : World) (data : bytes) (output : str)
  (pre : list str) (line : str) (post : list str) :
  decode data = Some output ->
  str_splitlines output = pre ++ line :: post ->
  (forall l, In l pre -> startswith (u"default") l = false) ->
  startswith (u"default") line = true ->
  get_gateway_ip_of W (Return data) = nth_error (str_split line) 2.
Proof.
  intros Hd Hs Hpre Hline. unfold get_gateway_ip_of.
  rewrite Hd, Hs, (scan_routes_first pre line post Hpre Hline).
  destruct (nth_error (str_split line) 2); reflexivity.
Qed.

(** X15 on a routing table whose default route comes second. *)
Lemma gateway_first_default_line_witness :
  get_gateway_ip_of sample_world (Return sample_routes) = Some (u"192.168.1.1").
Proof.
  rewrite (gateway_first_default_line sample_world sample_routes
             (u"192.168.1.0/24 dev eth0 proto kernel scope link src 192.168.1.10"
              ++ [newline] ++ u"default via 192.168.1.1 dev eth0 proto dhcp metric 100"
              ++ [newline])
             [u"192.168.1.0/24 dev eth0 proto kernel scope link src 192.168.1.10"]
             (u"default via 192.168.1.1 dev eth0 proto dhcp metric 100") []).
  - reflexivity.
  - vm_compute. reflexivity.
  - vm_compute. reflexivity.
  - intros l [<-|[]]. vm_compute. reflexivity.
  - vm_compute. reflexivity.
Defined.

(** X16.  A gateway that [get_gateway_ip] returns is a field of a line of
    the routing table: it is not empty and holds no white space. *)
Theorem gateway_is_a_field (W : World) (ip_route : result bytes) (g : str) :
  get_gateway_ip_of W ip_route = Some g ->
  g <> [] /\ forallb (fun c => negb (is_space c)) g = true.
Proof.
  unfold get_gateway_ip_of. intros H.
  destruct ip_route as [data|x]; [|discriminate H].
  destruct (decode data) as [output|]; [|discriminate H].
  destruct (scan_routes (str_splitlines output)) as [[g'|]|x] eqn:Hs; try discriminate H.
  injection H as ->.
  destruct (scan_routes_some _ _ Hs) as (line & _ & Hg).
  apply (split_from_fields line [] g eq_refl Hg).
Qed.

(** X16 on the sample routing table. *)
Lemma gateway_is_a_field_witness :
  u"192.168.1.1" <> []
  /\ forallb (fun c => negb (is_space c)) (u"192.168.1.1") = true.
Proof.
  apply (gateway_is_a_field sample_world (Return sample_routes) (u"192.168.1.1")).
  vm_compute. reflexivity.
Defined.

(** X17.  [get_gateway_ip] answers [None], and never raises, when the
    command fails, when its output is not UTF-8, when no line starts with
    [default], and when the first such line has fewer than three fields. *)
Theorem gateway_absent (W : World) :
  (forall x, get_gateway_ip_of W (Raise x) = None)
  /\ (forall data, decode data = None -> get_gateway_ip_of W (Return data) = None)
  /\ (forall data output,
        decode data = Some output ->
        (forall l, In l (str_splitlines output) -> startswith (u"default") l = false) ->
        get_gateway_ip_of W (Return data) = None)
  /\ (forall data output pre line post,
        decode data = Some output ->
        str_splitlines output = pre ++ line :: post ->
        (forall l, In l pre -> startswith (u"default") l = false) ->
        startswith (u"default") line = true ->
        (List.length (str_split line) < 3)%nat ->
        get_gateway_ip_of W (Return data) = None).
Proof.
  unfold get_gateway_ip_of. split; [reflexivity|]. split; [|split].
  - intros data ->. reflexivity.
  - intros data output -> H. now rewrite (scan_routes_none _ H).
  - intros data output pre line post -> -> Hpre Hline Hlen.
    rewrite (scan_routes_first pre line post Hpre Hline).
    destruct (nth_error (str_split line) 2) as [f|] eqn:Hf; [|reflexivity].
    assert (nth_error (str_split line) 2 <> None) as Hn by (rewrite Hf; discriminate).
    apply nth_error_Some in Hn. lia.
Qed.

(** X17 on a routing table whose first default route has two fields: the
    complete one below it is not looked at. *)
Lemma gateway_absent_witness :
  get_gateway_ip_of sample_world (Return short_routes) = None.
Proof.
  destruct (gateway_absent sample_world) as (_ & _ & _ & H).
  apply (H short_routes
           (u"default via" ++ [newline]
            ++ u"default via 192.168.1.1 dev eth0 proto dhcp metric 100" ++ [newline])
           [] (u"default via")
           [u"default via 192.168.1.1 dev eth0 proto dhcp metric 100"]).
  - vm_compute. reflexivity.
  - vm_compute. reflexivity.
  - intros l [].
  - vm_compute. reflexivity.
  - vm_compute. lia.
Defined.

(** X18.  [get_local_ip] closes the socket it made on every path, once and
    as its last call, asks for the socket name only after [connect] has
    returned, and returns an address exactly when both calls went
    through. *)
Theorem get_local_ip_closes_its_socket (sw : SocketWorld) :
  match sw_create sw with
  | Some x => get_local_ip_calls sw = ([SocketCreate], Raise x)
  | None =>
      exists body,
        fst (get_local_ip_calls sw) = SocketCreate :: body ++ [SocketClose]
        /\ ~ In SocketClose body /\ ~ In SocketCreate body
        /\ (In SocketGetsockname body <-> sw_connect sw = None)
        /\ (forall a, snd (get_local_ip_calls sw) = Return a
                      <-> sw_connect sw = None /\ sw_getsockname sw = Return a)
  end.
Proof.
  unfold get_local_ip_calls. destruct (sw_create sw) as [x|]; [reflexivity|].
  destruct (sw_connect sw) as [x|]; [|destruct (sw_getsockname sw) as [a|x]];
    cbn [fst snd]; eexists; (split; [reflexivity|]);
    (split; [intros [H|H]; try discriminate H; try destruct H as [H|H]; try discriminate H; contradiction|]);
    (split; [intros [H|H]; try discriminate H; try destruct H as [H|H]; try discriminate H; contradiction|]).
  - split; [split; [intros [H|[]]; discriminate H | discriminate]|].
    intros a. split; [discriminate | intros [H _]; discriminate H].
  - split; [split; [reflexivity | intros _; right; now left]|].
    intros b. split; [intros H; injection H as <-; split; reflexivity | intros [_ H]; exact H].
  - split; [split; [reflexivity | intros _; right; now left]|].
    intros b. split; [discriminate | intros [_ H]; discriminate H].
Qed.

(* ===================================================================== *)
(** ** The scan, and the lines of the logs *)
(* ===================================================================== *)

Section Scan.

Variable W : World.

Lemma live_hosts_answers l :
  live_hosts (map (ping_ip W) l) = filter (answers W) l.
Proof.
  induction l as [|a l IH]; [reflexivity|].
  cbn [map live_hosts flat_map filter]. unfold live_hosts in IH. rewrite IH.
  unfold ping_ip, answers. destruct (w_ping W a) as [[| |]|]; reflexivity.
Qed.

Lemma filter_filter {A} (p q : A -> bool) l :
  filter p (filter q l) = filter (fun a => q a && p a) l.
Proof.
  induction l as [|a l IH]; [reflexivity|]. cbn [filter].
  destruct (q a); cbn [filter andb]; [destruct (p a)|]; now rewrite IH.
Qed.

Lemma rendered_breaks error t n :
  (forall i, wf_time (w_clock W i)) ->
  line_breaks (rendered W error t n)
  = (List.length (logged error t) + breaks_within error t)%nat.
Proof.
  intros Hwf. unfold breaks_within. revert n.
  induction t as [|e t IH]; intros n; [reflexivity|].
  destruct e; cbn [rendered logged]; try apply IH.
  rewrite line_breaks_app, IH.
  destruct (Bool.eqb error0 error); [|reflexivity].
  rewrite (log_line_breaks _ msg (strftime_stamp_shape _ (Hwf n))).
  cbn [List.length map].
  change (list_sum (line_breaks msg :: map line_breaks (logged error t)))
    with (line_breaks msg + list_sum (map line_breaks (logged error t)))%nat.
  lia.
Qed.

End Scan.

(** X19.  The hosts [main] deploys to are the addresses of the scanned
    range, in the order of the scan, whose probe ran and ended with status
    0 and which the exclusion filter keeps. *)
Theorem targets_are_the_answering_candidates (W : World) (cfg : Config)
  (local : IPv4Address) :
  targets W cfg local
  = filter (fun a => answers W a
                     && eligible cfg (ip_str local) (get_gateway_ip W) (Some a))
           (ip_list local).
Proof.
  unfold targets. rewrite active_ips_filter, live_hosts_answers. apply filter_filter.
Qed.

(** X20.  When the log calls of a trace are carried out on the disk and go
    through, each log grows by one line for each of its entries, and by one
    more for every line break inside a message. *)
Theorem logs_grow_by_lines (W : World) (cfg : Config) (t : list Effect) (st : State) :
  (forall i, wf_time (w_clock W i)) ->
  fst (perform_all W cfg t st) = Return tt ->
  let st' := snd (perform_all W cfg t st) in
  line_breaks (detailed_log st')
  = (line_breaks (detailed_log st) + List.length (logged false t)
     + breaks_within false t)%nat
  /\ line_breaks (error_log st')
     = (line_breaks (error_log st) + List.length (logged true t)
        + breaks_within true t)%nat.
Proof.
  intros Hwf _. cbv zeta. rewrite perform_all_run. cbn [fst snd detailed_log error_log].
  rewrite !line_breaks_app, !(rendered_breaks W _ _ _ Hwf).
  split; lia.
Qed.

(** X20 on the sample network: a run of [main] from an empty disk leaves ten
    lines in the detailed log, for nine entries. *)
Lemma logs_grow_by_lines_witness :
  line_breaks (detailed_log (snd (perform_all sample_world source_config
                                    (trace (main sample_world source_config)) empty_disk)))
  = 10%nat.
Proof.
  destruct (logs_grow_by_lines sample_world source_config
              (trace (main sample_world source_config)) empty_disk) as (D & _).
  - intros i. vm_compute. repeat split; discriminate.
  - vm_compute. reflexivity.
  - rewrite D. vm_compute. reflexivity.
Defined.
